(** * APDL escrow chaincode (apdlcc.go): model and verified properties

    The chaincode keeps one agreement record under a fixed ledger key and one
    decimal balance per participant key.  This development embeds [Init],
    [Invoke] and [verifySig] as functions over an explicit ledger state and
    proves the behavioural properties of the agreement state machine.

    Conventions of the embedding:
    - Go's [string] and [[]byte] are both Rocq [string]s (the conversions
      [[]byte(s)] and [string(b)] copy the bytes unchanged);
    - Go's [int] is a 64-bit two's complement integer, modelled as [Z] with
      the wrap-around written out ([wrap64]);
    - [time.Time] is an instant on the time line, modelled as [Z];
      [t.After(u)] is [u < t];
    - the ledger behind [shim.ChaincodeStubInterface] is a finite map from
      keys to byte strings; the current time and the transaction's string
      arguments are inputs of every call. *)

From Stdlib Require Import ZArith Lia List String Ascii.
From Stdlib Require Import DecimalString DecimalPos DecimalZ.
From stdpp Require Import base option gmap strings.

Import ListNotations.
Local Open Scope string_scope.
Local Open Scope Z_scope.

(** ** Go's [int] *)

Definition maxInt : Z := 2 ^ 63 - 1.
Definition minInt : Z := - 2 ^ 63.

Definition in_int (z : Z) : Prop := minInt <= z <= maxInt.

(** Reduction of a mathematical integer to the 64-bit signed range. *)
Definition wrap64 (z : Z) : Z := (z + 2 ^ 63) mod 2 ^ 64 - 2 ^ 63.

Definition int_add (a b : Z) : Z := wrap64 (a + b).
Definition int_sub (a b : Z) : Z := wrap64 (a - b).

(** ** strconv *)

(** [strconv.Itoa]: decimal digits, with a leading [-] for negatives. *)
Definition Itoa (n : Z) : string := NilZero.string_of_int (Z.to_int n).

Definition is_digit (c : ascii) : bool :=
  (48 <=? nat_of_ascii c)%nat && (nat_of_ascii c <=? 57)%nat.

Definition digit_val (c : ascii) : Z := Z.of_nat (nat_of_ascii c) - 48.

(** The digit loop of [Atoi]/[ParseUint]: [n = n*10 + int(ch - '0')].  A
    byte that is not a decimal digit is a syntax error ([None]); a value
    that no longer fits a [uint64] stops the loop at once with the largest
    [uint64], which [Atoi] then reports as a range error, whatever bytes
    follow. *)
Fixpoint atoi_digits (s : string) (n : Z) : option Z :=
  match s with
  | EmptyString => Some n
  | String ch s' =>
      if is_digit ch then
        let n1 := n * 10 + digit_val ch in
        if 2 ^ 64 <=? n1 then Some (2 ^ 64 - 1) else atoi_digits s' n1
      else None
  end.

(** [strconv.Atoi]: the value and whether an error was returned.  A syntax
    error yields 0; a value outside the [int] range yields the nearest bound
    together with a range error. *)
Definition Atoi (s : string) : Z * bool :=
  let '(neg, body) :=
    match s with
    | String c r =>
        if Ascii.eqb c "-" then (true, r)
        else if Ascii.eqb c "+" then (false, r)
        else (false, s)
    | EmptyString => (false, s)
    end in
  match body with
  | EmptyString => (0, true)
  | _ =>
      match atoi_digits body 0 with
      | None => (0, true)
      | Some v =>
          if neg then (if 2 ^ 63 <? v then (minInt, true) else (- v, false))
          else (if 2 ^ 63 <=? v then (maxInt, true) else (v, false))
      end
  end.

(** ** strings *)

(** [strings.Split(s, ",")]: the pieces between the commas; one more piece
    than there are commas, so never an empty slice. *)
Fixpoint Split_comma (s : string) : list string :=
  match s with
  | EmptyString => [EmptyString]
  | String c s' =>
      if Ascii.eqb c "," then EmptyString :: Split_comma s'
      else match Split_comma s' with
           | h :: t => String c h :: t
           | [] => [String c EmptyString]
           end
  end.

(** [strings.Join(a, sep)]. *)
Fixpoint Join (a : list string) (sep : string) : string :=
  match a with
  | [] => ""
  | [x] => x
  | x :: rest => x ++ sep ++ Join rest sep
  end.

(** ** Package-level variables and types *)

Definition StartAmount : Z := 75000.
Definition ContractKey : string := "contract".
Definition SenderIP : string := "0.0.0.0".
Definition SenderPort : string := "0".

Record Party := mkParty {
  PubKey : string;
  IPAddress : string;
  Port : string
}.

Record APDL := mkAPDL {
  Status : string;
  SoftwareOwner : Party;
  SoftwareUser : Party;
  ContractExpiry : Z;
  DepositAmount : Z
}.

(** The zero values [Party{}] and [var apdl APDL]. *)
Definition Party_zero : Party := mkParty "" "" "".

Definition set_Status (a : APDL) (s : string) : APDL :=
  mkAPDL s (SoftwareOwner a) (SoftwareUser a) (ContractExpiry a) (DepositAmount a).

(** ** The ledger behind the stub *)

(** [peer.Response]: a success with its payload, or an error with its
    message. *)
Inductive Response :=
| Success (payload : string)
| Error (msg : string).

(** [stub.GetState]: the stored bytes, empty for a key never written. *)
Definition GetState (st : gmap string string) (key : string) : string :=
  default "" (st !! key).

(** [stub.PutState]: the shim refuses the empty key and writes nothing;
    every other key is written.  The boolean is [err != nil]. *)
Definition PutState (st : gmap string string) (key value : string)
  : gmap string string * bool :=
  if decide (key = "") then (st, true) else (<[key := value]> st, false).

(** [stub.GetFunctionAndParameters] over the transaction's string
    arguments: the first is the function name, the rest its parameters. *)
Definition GetFunctionAndParameters (sargs : list string) : string * list string :=
  match sargs with
  | [] => ("", [])
  | fn :: params => (fn, params)
  end.

(** Indexing a slice whose length has been checked; the default is never
    reached on the paths that use it. *)
Definition idx (args : list string) (i : nat) : string := nth i args "".

(** A participant's balance as the chaincode reads it:
    [balance, _ := strconv.Atoi(string(value))]. *)
Definition read_balance (st : gmap string string) (key : string) : Z :=
  fst (Atoi (GetState st key)).

(** ** The libraries the chaincode calls

    The packages behind [verifySig], the record encoding and the date
    parser are an interface of the development: every theorem holds for
    whatever implementation stands behind it. *)

(** What [x509.ParsePKIXPublicKey] hands to the type switch of
    [verifySig]: an [*ecdsa.PublicKey], or a key of another algorithm. *)
Inductive PKIXKey (K : Type) :=
| ECDSAKey (k : K)
| OtherKey.
Arguments ECDSAKey {K} k.
Arguments OtherKey {K}.

Class External := {
  (** [ecdsa.PublicKey] *)
  ecdsa_PublicKey : Type;
  (** [base64.URLEncoding.DecodeString]: the bytes decoded so far and
      whether an error was returned. *)
  base64_DecodeString : string -> string * bool;
  (** [x509.ParsePKIXPublicKey]: [None] when it returns an error. *)
  x509_ParsePKIXPublicKey : string -> option (PKIXKey ecdsa_PublicKey);
  (** [new(big.Int).SetString(s, 0)]: the receiver after the call. *)
  big_SetString : string -> Z;
  (** [ecdsa.Verify(pub, hash, r, s)] *)
  ecdsa_Verify : ecdsa_PublicKey -> string -> Z -> Z -> bool;
  (** [json.Marshal] of an [APDL] *)
  json_Marshal : APDL -> string;
  (** [json.Unmarshal(data, &apdl)] into a zero-valued [apdl]; its error
      is never looked at, so only the resulting record matters. *)
  json_Unmarshal : string -> APDL;
  (** [time.Parse("01/02/2006", s)]: the date, or the error's text. *)
  time_Parse : string -> Z + string;
  (** [t.Format("01/02/2006")] *)
  time_Format : Z -> string
}.

(** [t.After(u)] *)
Definition After (t u : Z) : bool := u <? t.

Definition LF : string := String (ascii_of_nat 10) EmptyString.

Section Chaincode.
Context `{Ext : External}.

(** *** verifySig *)

(** The body of the loop of [verifySig] from position [i] on, with the
    current value of [verified].  The base64 error is overwritten by the
    parser's before it is tested. *)
Fixpoint verifySig_loop (message : string) (publicKeys signatures : list string)
  (verified : bool) : bool :=
  match publicKeys, signatures with
  | [], _ => verified
  | _ :: _, [] => false
  | pk :: publicKeys', sg :: signatures' =>
      let '(publicKeyBytes, _) := base64_DecodeString pk in
      match x509_ParsePKIXPublicKey publicKeyBytes with
      | None => false
      | Some publicKey =>
          match Split_comma sg with
          | sig0 :: sig1 :: _ =>
              let r := big_SetString sig0 in
              let s := big_SetString sig1 in
              match publicKey with
              | ECDSAKey publicKey =>
                  verifySig_loop message publicKeys' signatures'
                    (ecdsa_Verify publicKey message r s)
              | OtherKey => false
              end
          | _ => false
          end
      end
  end.

Definition verifySig (message : string) (publicKeys signatures : list string) : bool :=
  let verified := false in
  if negb (length publicKeys =? length signatures)%nat then false
  else verifySig_loop message publicKeys signatures verified.

(** *** Init *)

Definition Init (st : gmap string string) (now : Z) : Response * gmap string string :=
  let apdl := mkAPDL "init" Party_zero Party_zero now 0 in
  let b := json_Marshal apdl in
  let '(st1, err) := PutState st ContractKey b in
  if err then (Error "[-] Failed to process download request transaction. Error!", st1)
  else (Success ("[+] Init completed" ++ LF), st1).

(** *** Invoke *)

Definition Invoke_download_request (st : gmap string string) (now : Z)
  (result : string) (args : list string) : Response * gmap string string :=
  if negb (length args =? 7)%nat then
    (Error ("Incorrect number of arguments. Got " ++ Itoa (Z.of_nat (length args))
            ++ ": " ++ Join args ","
            ++ "Expecting [sender_pk, recipient_pk, deposit_amount, deposit_time, recipient_ip, recipient_port]"),
     st)
  else
    let '(amount, err) := Atoi (idx args 3) in
    if err || (amount <? 0) then (Error "Invalid amount passed", st)
    else
      match time_Parse (idx args 4) with
      | inr e => (Error ("Unable to parse: " ++ idx args 4 ++ " Error: " ++ e), st)
      | inl dt =>
          if negb (After dt now) then
            (Error ("Invalid (past) time passed: " ++ time_Format dt
                    ++ ". Time Now: " ++ time_Format now), st)
          else
            let senderPublicKey := idx args 1 in
            let recipientPublicKey := idx args 2 in
            let ds := mkParty senderPublicKey SenderIP SenderPort in
            let dr := mkParty recipientPublicKey (idx args 5) (idx args 6) in
            let apdl := mkAPDL "download_requested" ds dr dt amount in
            let initialAmount := Itoa (int_sub StartAmount amount) in
            let '(st1, _) := PutState st senderPublicKey initialAmount in
            let '(st2, _) := PutState st1 recipientPublicKey initialAmount in
            let b := json_Marshal apdl in
            let '(st3, err) := PutState st2 ContractKey b in
            if err then
              (Error "[-] Failed to process download request transaction. Error!", st3)
            else (Success result, st3)
      end.

Definition Invoke_penalty (st : gmap string string) (args : list string)
  : Response * gmap string string :=
  if negb (length args =? 4)%nat then (Error "need to pass recipient sig", st)
  else
    let contract := GetState st ContractKey in
    let apdl := json_Unmarshal contract in
    if bool_decide (Status apdl = "init") || bool_decide (Status apdl = "penalized") then
      (Error ("[-] Invalid status for penalty. Current status: " ++ Status apdl), st)
    else
      let publicKeys := [PubKey (SoftwareOwner apdl); PubKey (SoftwareUser apdl)] in
      let cmp1 := PubKey (SoftwareOwner apdl) ++ " vs. " ++ idx args 2 in
      let cmp2 := PubKey (SoftwareUser apdl) ++ " vs. " ++ idx args 3 in
      let signatures := [idx args 2; idx args 3] in
      if negb (verifySig (idx args 1) publicKeys signatures) then
        (Error ("[-] Signature verification failed. Penalty not applied. comparisons: "
                ++ cmp1 ++ "---" ++ cmp2), st)
      else
        let value := GetState st (PubKey (SoftwareUser apdl)) in
        let '(balance, _) := Atoi value in
        let balance := int_sub balance (DepositAmount apdl) in
        let endBalance := Itoa balance in
        let '(st1, _) := PutState st (PubKey (SoftwareUser apdl)) endBalance in
        let apdl := set_Status apdl "penalized" in
        let b := json_Marshal apdl in
        let '(st2, _) := PutState st1 ContractKey b in
        (Success ("[+] Penalty applied" ++ LF), st2).

(** The refund branch writes the record before it reads the user's
    balance; the read sees that write only when the user's key is the
    record's key, and then finds no decimal number either way. *)
Definition Invoke_refund (st : gmap string string) (now : Z)
  : Response * gmap string string :=
  let contract := GetState st ContractKey in
  let apdl := json_Unmarshal contract in
  if negb (bool_decide (Status apdl = "download_request")) then
    (Error ("[-] Invalid status for refund. Current status: " ++ Status apdl), st)
  else
    let tnow := now in
    if After tnow (ContractExpiry apdl) then
      let apdl := set_Status apdl "expired" in
      let b := json_Marshal apdl in
      let '(st1, _) := PutState st ContractKey b in
      let value := GetState st1 (PubKey (SoftwareUser apdl)) in
      let '(balance, _) := Atoi value in
      let balance := int_add balance (DepositAmount apdl) in
      let endBalance := Itoa balance in
      let '(st2, _) := PutState st1 (PubKey (SoftwareUser apdl)) endBalance in
      (Success "[+] APDL contract expired.", st2)
    else (Error "[-] APDL contract not yet expired", st).

(** [Invoke]: [st] is the ledger before the call, [now] the clock, [sargs]
    the transaction's string arguments ([stub.GetStringArgs()]).  The outer
    [err] is never assigned, so the final test always falls through to the
    success response. *)
Definition Invoke (st : gmap string string) (now : Z) (sargs : list string)
  : Response * gmap string string :=
  let '(fn, args) := GetFunctionAndParameters sargs in
  let result := fn in
  if bool_decide (fn = "download_request") then
    let args := sargs in
    Invoke_download_request st now result args
  else if bool_decide (fn = "penalty") then Invoke_penalty st args
  else if bool_decide (fn = "refund") then Invoke_refund st now
  else if bool_decide (fn = "get_status") then
    let contract := GetState st ContractKey in
    (Success contract, st)
  else (Success result, st).

End Chaincode.

(** ** A small implementation of the library interface

    A deliberately simple stand-in used to run the chaincode on concrete
    transactions: keys are written [EC:<name>] or [RSA:<name>], a [!] stops
    the base64 decoder with an error after the bytes decoded so far, a
    signature [r,s] is valid when [r] is the length of the key's name and
    [s] the length of the message, records are encoded field by field, and
    dates are day numbers. *)
Module Sample.

Fixpoint decode_until_bang (s : string) : string * bool :=
  match s with
  | EmptyString => (EmptyString, false)
  | String c s' =>
      if Ascii.eqb c "!" then (EmptyString, true)
      else let '(b, err) := decode_until_bang s' in (String c b, err)
  end.

Definition parse_key (b : string) : option (PKIXKey string) :=
  match b with
  | String "E" (String "C" (String ":" name)) => Some (ECDSAKey name)
  | String "R" (String "S" (String "A" (String ":" _))) => Some OtherKey
  | _ => None
  end.

Definition verify (pub message : string) (r s : Z) : bool :=
  (r =? Z.of_nat (String.length pub)) && (s =? Z.of_nat (String.length message)).

(** One field: every byte prefixed by [x], the field closed by [.]. *)
Fixpoint enc_field (s : string) : string :=
  match s with
  | EmptyString => "."
  | String c s' => String "x" (String c (enc_field s'))
  end.

Fixpoint dec_field (s : string) : string * string :=
  match s with
  | String "x" (String c rest) =>
      let '(f, r) := dec_field rest in (String c f, r)
  | String "." rest => (EmptyString, rest)
  | _ => (EmptyString, EmptyString)
  end.

Definition enc_Z (z : Z) : string := enc_field (NilZero.string_of_int (Z.to_int z)).

Definition dec_Z (s : string) : Z * string :=
  let '(f, r) := dec_field s in
  (match NilZero.int_of_string f with Some d => Z.of_int d | None => 0 end, r).

Definition enc_Party (p : Party) : string :=
  enc_field (PubKey p) ++ enc_field (IPAddress p) ++ enc_field (Port p).

Definition dec_Party (s : string) : Party * string :=
  let '(k, s) := dec_field s in
  let '(ip, s) := dec_field s in
  let '(port, s) := dec_field s in
  (mkParty k ip port, s).

Definition marshal (a : APDL) : string :=
  enc_field (Status a) ++ enc_Party (SoftwareOwner a) ++ enc_Party (SoftwareUser a)
  ++ enc_Z (ContractExpiry a) ++ enc_Z (DepositAmount a).

Definition unmarshal (s : string) : APDL :=
  let '(status, s) := dec_field s in
  let '(owner, s) := dec_Party s in
  let '(user, s) := dec_Party s in
  let '(expiry, s) := dec_Z s in
  let '(deposit, _) := dec_Z s in
  mkAPDL status owner user expiry deposit.

Definition parse_date (s : string) : Z + string :=
  let '(v, err) := Atoi s in
  if err then inr "cannot parse date" else inl v.

Definition lib : External := {|
  ecdsa_PublicKey := string;
  base64_DecodeString := decode_until_bang;
  x509_ParsePKIXPublicKey := parse_key;
  big_SetString := fun s => fst (Atoi s);
  ecdsa_Verify := verify;
  json_Marshal := marshal;
  json_Unmarshal := unmarshal;
  time_Parse := parse_date;
  time_Format := Itoa
|}.

End Sample.

(** Concrete ledgers and transactions over the sample library. *)
Module Run.

(** A ledger holding a record with the given status, parties, expiry and
    deposit, in the sample encoding, and one balance for the user. *)
Definition ledger (status owner user : string) (expiry deposit : Z)
  (balance : string) : gmap string string :=
  <[user := balance]>
    (<[ContractKey := Sample.marshal
         (mkAPDL status (mkParty owner SenderIP SenderPort)
            (mkParty user "1.2.3.4" "9000") expiry deposit)]> ∅).

Definition request_args (owner user amt date : string) : list string :=
  ["download_request"; owner; user; amt; date; "1.2.3.4"; "9000"].

End Run.

(** ** Specification vocabulary *)

Section Vocabulary.
Context `{Ext : External}.

(** The elliptic-curve key a key string stands for, if any: what the loop
    of [verifySig] obtains from decoding and parsing it. *)
Definition decodes_ec (pk : string) : option ecdsa_PublicKey :=
  match x509_ParsePKIXPublicKey (fst (base64_DecodeString pk)) with
  | Some (ECDSAKey k) => Some k
  | _ => None
  end.

(** The verification outcome of one (key, signature) pair. *)
Definition pair_verifies (message pk sg : string) : bool :=
  match decodes_ec pk, Split_comma sg with
  | Some k, sig0 :: sig1 :: _ =>
      ecdsa_Verify k message (big_SetString sig0) (big_SetString sig1)
  | _, _ => false
  end.

(** The agreement record as the operations load it. *)
Definition load (st : gmap string string) : APDL :=
  json_Unmarshal (GetState st ContractKey).

(** The six arguments of a request, in the order the transaction lists them
    after the function name: owner key, user key, deposit amount, expiry
    date, user address, user port. *)
Definition request_wellformed (now : Z) (params : list string) (amount dt : Z) : Prop :=
  length params = 6%nat /\
  Atoi (idx params 2) = (amount, false) /\ 0 <= amount /\
  time_Parse (idx params 3) = inl dt /\ now < dt.

(** The ways a request fails validation: wrong argument count, amount not
    a number or negative, date unparseable or not in the future. *)
Definition request_malformed (now : Z) (params : list string) : Prop :=
  length params <> 6%nat \/
  snd (Atoi (idx params 2)) = true \/
  fst (Atoi (idx params 2)) < 0 \/
  (exists e, time_Parse (idx params 3) = inr e) \/
  (exists dt, time_Parse (idx params 3) = inl dt /\ dt <= now).

(** The record a well-formed request describes. *)
Definition requested_record (params : list string) (amount dt : Z) : APDL :=
  mkAPDL "download_requested"
    (mkParty (idx params 0) SenderIP SenderPort)
    (mkParty (idx params 1) (idx params 4) (idx params 5))
    dt amount.

(** The ledger a well-formed request leaves behind, whatever its keys. *)
Definition request_writes (st : gmap string string) (params : list string)
  (amount dt : Z) : gmap string string :=
  let initialAmount := Itoa (StartAmount - amount) in
  <[ContractKey := json_Marshal (requested_record params amount dt)]>
    (fst (PutState (fst (PutState st (idx params 0) initialAmount))
            (idx params 1) initialAmount)).

(** The ledger a penalty that passed both gates leaves behind. *)
Definition penalty_writes (st : gmap string string) : gmap string string :=
  let apdl := load st in
  let user := PubKey (SoftwareUser apdl) in
  let endBalance := Itoa (int_sub (read_balance st user) (DepositAmount apdl)) in
  <[ContractKey := json_Marshal (set_Status apdl "penalized")]>
    (fst (PutState st user endBalance)).

(** The ledger a refund that passed both tests leaves behind. *)
Definition refund_writes (st : gmap string string) : gmap string string :=
  let apdl := load st in
  let user := PubKey (SoftwareUser apdl) in
  let st1 := <[ContractKey := json_Marshal (set_Status apdl "expired")]> st in
  fst (PutState st1 user
         (Itoa (int_add (read_balance st1 user) (DepositAmount apdl)))).

(** A run of the chaincode: the transactions of [calls], each with the
    time at which it executes, applied one after the other. *)
Fixpoint run (st : gmap string string) (calls : list (Z * list string))
  : gmap string string :=
  match calls with
  | [] => st
  | (now, sargs) :: calls' => run (snd (Invoke st now sargs)) calls'
  end.

(** What holds of the stored record on every ledger a run can reach after
    [Init]. *)
Definition agreement_inv (st : gmap string string) : Prop :=
  let apdl := load st in
  (Status apdl = "init" \/ Status apdl = "download_requested"
   \/ Status apdl = "penalized") /\
  0 <= DepositAmount apdl <= maxInt.

(** The encoding reads back the status of the record [a]. *)
Definition json_reads_status (a : APDL) : Prop :=
  Status (json_Unmarshal (json_Marshal a)) = Status a.

(** The encoding reads back every record it writes. *)
Definition json_roundtrip : Prop :=
  forall a : APDL, json_Unmarshal (json_Marshal a) = a.

End Vocabulary.

(** ** verifySig *)

Section VerifySig.
Context `{Ext : External}.

Lemma Split_comma_nonempty (s : string) : Split_comma s <> [].
Proof.
  destruct s as [|c s]; simpl; [discriminate|].
  destruct (Ascii.eqb c ","); [discriminate|].
  destruct (Split_comma s); discriminate.
Qed.

(** One iteration on a pair whose key is elliptic-curve and whose signature
    has two components replaces [verified] by that pair's outcome. *)
Lemma verifySig_loop_step (message pk sg : string) (pks sgs : list string)
  (k : ecdsa_PublicKey) (v : bool) :
  decodes_ec pk = Some k ->
  (2 <= length (Split_comma sg))%nat ->
  verifySig_loop message (pk :: pks) (sg :: sgs) v
  = verifySig_loop message pks sgs (pair_verifies message pk sg).
Proof.
  intros Hk Hs. unfold pair_verifies. rewrite Hk.
  unfold decodes_ec in Hk. simpl.
  destruct (base64_DecodeString pk) as [bytes e]; simpl in Hk.
  destruct (x509_ParsePKIXPublicKey bytes) as [[k'|]|]; try discriminate.
  injection Hk as ->.
  destruct (Split_comma sg) as [|s0 [|s1 rest]]; simpl in Hs; try lia.
  reflexivity.
Qed.

(** An iteration that meets a bad key or a short signature returns false
    at once. *)
Lemma verifySig_loop_reject (message pk sg : string) (pks sgs : list string) (v : bool) :
  decodes_ec pk = None \/ (length (Split_comma sg) < 2)%nat ->
  verifySig_loop message (pk :: pks) (sg :: sgs) v = false.
Proof.
  intros H. unfold decodes_ec in H. simpl.
  destruct (base64_DecodeString pk) as [bytes e]; simpl in H.
  destruct (x509_ParsePKIXPublicKey bytes) as [[k'|]|]; [| |reflexivity].
  - destruct H as [H|H]; [discriminate|].
    destruct (Split_comma sg) as [|s0 [|s1 rest]]; simpl in H; try lia; reflexivity.
  - destruct (Split_comma sg) as [|s0 [|s1 rest]]; reflexivity.
Qed.

Lemma verifySig_loop_last (message pk sg : string) :
  forall (pks sgs : list string) (v : bool),
  length pks = length sgs ->
  Forall (fun p => is_Some (decodes_ec p)) (pks ++ [pk]) ->
  Forall (fun s => (2 <= length (Split_comma s))%nat) (sgs ++ [sg]) ->
  verifySig_loop message (pks ++ [pk]) (sgs ++ [sg]) v = pair_verifies message pk sg.
Proof.
  induction pks as [|p pks IH]; intros [|s sgs] v Hlen Hk Hs;
    simpl in Hlen; try discriminate.
  - simpl app. inversion Hk as [|? ? [k Hp] _]; subst.
    inversion Hs as [|? ? Hsg _]; subst.
    rewrite (verifySig_loop_step _ _ _ _ _ k); auto.
  - rewrite <- !app_comm_cons.
    inversion Hk as [|? ? [k Hp] Hk']; subst.
    inversion Hs as [|? ? Hsg Hs']; subst.
    rewrite (verifySig_loop_step _ _ _ _ _ k); auto.
Qed.

(** C1.  When the key and signature lists have the same length, every key
    decodes to an elliptic-curve public key and every signature splits
    into at least two components, [verifySig] returns the verification
    outcome of the last (key, signature) pair, whatever the outcomes of
    the earlier pairs. *)
Theorem verifySig_is_last_pair (message pk sg : string) (pks sgs : list string) :
  length pks = length sgs ->
  Forall (fun p => is_Some (decodes_ec p)) (pks ++ [pk]) ->
  Forall (fun s => (2 <= length (Split_comma s))%nat) (sgs ++ [sg]) ->
  verifySig message (pks ++ [pk]) (sgs ++ [sg]) = pair_verifies message pk sg.
Proof.
  intros Hlen Hk Hs. unfold verifySig.
  rewrite !length_app, Hlen, Nat.eqb_refl. simpl negb. cbv iota.
  apply verifySig_loop_last; assumption.
Qed.

End VerifySig.

(** ** Decimal balances: [Atoi] reads back what [Itoa] wrote *)

Section Decimal.

Lemma of_lu_le_revapp (d e : Decimal.uint) :
  (Unsigned.of_lu e <= Unsigned.of_lu (Decimal.revapp d e))%N.
Proof.
  rewrite Unsigned.of_lu_revapp.
  assert (H : (1 <= 10 ^ Unsigned.usize d)%N).
  { pose proof (N.pow_nonzero 10 (Unsigned.usize d) ltac:(discriminate)). lia. }
  nia.
Qed.

Lemma atoi_digits_of_lu (d e : Decimal.uint) :
  Z.of_N (Unsigned.of_lu (Decimal.revapp d e)) < 2 ^ 64 ->
  atoi_digits (NilEmpty.string_of_uint d) (Z.of_N (Unsigned.of_lu e))
  = Some (Z.of_N (Unsigned.of_lu (Decimal.revapp d e))).
Proof.
  revert e. induction d; intros e Hlt; simpl Decimal.revapp in *; [reflexivity|..].
  all: simpl NilEmpty.string_of_uint; cbn [atoi_digits].
  all: match goal with
       | |- context [is_digit ?c] => change (is_digit c) with true; cbv iota
       end.
  all: match goal with
       | Hlt : Z.of_N (Unsigned.of_lu (Decimal.revapp ?d' ?e')) < _
         |- context [digit_val ?c] =>
           let v := eval vm_compute in (digit_val c) in
           change (digit_val c) with v;
           replace (Z.of_N (Unsigned.of_lu e) * 10 + v)
             with (Z.of_N (Unsigned.of_lu e'))
             by (Unsigned.simpl_of_lu; lia);
           pose proof (of_lu_le_revapp d' e');
           destruct (Z.leb_spec (2 ^ 64) (Z.of_N (Unsigned.of_lu e'))); [lia|];
           apply IHd; exact Hlt
       end.
Qed.

Lemma atoi_digits_to_uint (p : positive) :
  Z.pos p < 2 ^ 64 ->
  atoi_digits (NilEmpty.string_of_uint (Pos.to_uint p)) 0 = Some (Z.pos p).
Proof.
  intros Hlt.
  assert (E : Z.of_N (Unsigned.of_lu (Decimal.revapp (Pos.to_uint p) Decimal.Nil))
              = Z.pos p).
  { change (Decimal.revapp (Pos.to_uint p) Decimal.Nil)
      with (Decimal.rev (Pos.to_uint p)).
    rewrite <- Unsigned.of_uint_alt, Unsigned.of_to. reflexivity. }
  change 0 with (Z.of_N (Unsigned.of_lu Decimal.Nil)).
  rewrite atoi_digits_of_lu; rewrite E; [reflexivity|assumption].
Qed.

Lemma string_of_uint_head (d : Decimal.uint) :
  d <> Decimal.Nil ->
  exists c r, NilEmpty.string_of_uint d = String c r
              /\ Ascii.eqb c "-" = false /\ Ascii.eqb c "+" = false.
Proof.
  destruct d; [congruence|..]; intros _; simpl; eauto.
Qed.

Lemma Atoi_Itoa (n : Z) : in_int n -> Atoi (Itoa n) = (n, false).
Proof.
  unfold in_int, minInt, maxInt, Itoa. intros Hn.
  destruct n as [|p|p]; [reflexivity| |]; simpl Z.to_int; simpl NilZero.string_of_int.
  - pose proof (Unsigned.to_uint_nonnil p) as Hnil.
    pose proof (atoi_digits_to_uint p ltac:(lia)) as Hd.
    assert (Hs : NilZero.string_of_uint (Pos.to_uint p)
                 = NilEmpty.string_of_uint (Pos.to_uint p))
      by (revert Hnil; destruct (Pos.to_uint p); intros; [congruence|reflexivity..]).
    rewrite Hs.
    destruct (string_of_uint_head _ Hnil) as (c & r & Hc & Hm & Hp).
    rewrite Hc in *. unfold Atoi. rewrite Hm, Hp, Hd.
    destruct (Z.leb_spec (2 ^ 63) (Z.pos p)); [lia|reflexivity].
  - pose proof (Unsigned.to_uint_nonnil p) as Hnil.
    pose proof (atoi_digits_to_uint p ltac:(lia)) as Hd.
    assert (Hs : NilZero.string_of_uint (Pos.to_uint p)
                 = NilEmpty.string_of_uint (Pos.to_uint p))
      by (revert Hnil; destruct (Pos.to_uint p); intros; [congruence|reflexivity..]).
    rewrite Hs.
    destruct (string_of_uint_head _ Hnil) as (c & r & Hc & _ & _).
    rewrite Hc in *. unfold Atoi. simpl Ascii.eqb. cbv iota. rewrite Hd.
    destruct (Z.ltb_spec (2 ^ 63) (Z.pos p)); [lia|reflexivity].
Qed.

(** [Atoi] at the edges of its domain: signs, syntax errors, the two
    bounds, and digits that overflow before a byte that is not a digit. *)
Lemma Atoi_edge_cases :
  Atoi "" = (0, true) /\ Atoi "-" = (0, true) /\ Atoi "+7" = (7, false) /\
  Atoi "12a" = (0, true) /\
  Atoi "9223372036854775807" = (maxInt, false) /\
  Atoi "9223372036854775808" = (maxInt, true) /\
  Atoi "-9223372036854775808" = (minInt, false) /\
  Atoi "99999999999999999999x" = (maxInt, true) /\
  Atoi "-99999999999999999999x" = (minInt, true).
Proof. vm_compute. repeat split. Qed.

Lemma wrap64_in_int (z : Z) : in_int (wrap64 z).
Proof.
  unfold in_int, wrap64, minInt, maxInt.
  pose proof (Z.mod_pos_bound (z + 2 ^ 63) (2 ^ 64) ltac:(lia)). lia.
Qed.

Lemma wrap64_id (z : Z) : in_int z -> wrap64 z = z.
Proof.
  unfold in_int, wrap64, minInt, maxInt. intros H.
  rewrite Z.mod_small by lia. lia.
Qed.

(** A balance written with [Itoa] reads back as itself. *)
Lemma read_balance_insert (st : gmap string string) (key : string) (v : Z) :
  in_int v -> read_balance (<[key := Itoa v]> st) key = v.
Proof.
  intros Hv. unfold read_balance, GetState.
  rewrite lookup_insert_eq. simpl. rewrite Atoi_Itoa by assumption. reflexivity.
Qed.

End Decimal.

(** ** Dispatch and request *)

Section Request.
Context `{Ext : External}.

Lemma atoi_digits_nonneg (s : string) :
  forall n v : Z, 0 <= n -> atoi_digits s n = Some v -> 0 <= v.
Proof.
  induction s as [|c s IH]; simpl; intros n v Hn Hv.
  - injection Hv as <-. assumption.
  - destruct (is_digit c) eqn:Hc; [|discriminate].
    destruct (2 ^ 64 <=? n * 10 + digit_val c); [injection Hv as <-; lia|].
    eapply IH; [|exact Hv].
    unfold is_digit in Hc. apply andb_prop in Hc as [Hlo _].
    apply Nat.leb_le in Hlo. unfold digit_val. lia.
Qed.

(** A successful [Atoi] yields a value of the [int] range. *)
Lemma Atoi_ok_in_int (s : string) (v : Z) : Atoi s = (v, false) -> in_int v.
Proof.
  unfold Atoi, in_int, minInt, maxInt.
  destruct s as [|c r]; [discriminate|].
  destruct (Ascii.eqb c "-"); [|destruct (Ascii.eqb c "+")].
  - destruct r; [discriminate|].
    destruct (atoi_digits _ 0) as [z|] eqn:Hz; [|discriminate].
    apply atoi_digits_nonneg in Hz; [|lia].
    destruct (Z.ltb_spec (2 ^ 63) z); intros [= <-]. lia.
  - destruct r; [discriminate|].
    destruct (atoi_digits _ 0) as [z|] eqn:Hz; [|discriminate].
    apply atoi_digits_nonneg in Hz; [|lia].
    destruct (Z.leb_spec (2 ^ 63) z); intros [= <-]. lia.
  - destruct (atoi_digits _ 0) as [z|] eqn:Hz; [|discriminate].
    apply atoi_digits_nonneg in Hz; [|lia].
    destruct (Z.leb_spec (2 ^ 63) z); intros [= <-]. lia.
Qed.

Lemma Invoke_request_ok (st : gmap string string) (now : Z) (params : list string)
  (amount dt : Z) :
  request_wellformed now params amount dt ->
  Invoke st now ("download_request" :: params)
  = (Success "download_request", request_writes st params amount dt).
Proof.
  intros (Hlen & Ha & Hpos & Hd & Hfut).
  pose proof (Atoi_ok_in_int _ _ Ha) as Hin.
  unfold Invoke, Invoke_download_request. simpl GetFunctionAndParameters.
  cbv iota beta. rewrite bool_decide_eq_true_2 by reflexivity.
  simpl length. rewrite Hlen. simpl negb. cbv iota.
  change (idx ("download_request" :: params) 3) with (idx params 2).
  change (idx ("download_request" :: params) 4) with (idx params 3).
  change (idx ("download_request" :: params) 1) with (idx params 0).
  change (idx ("download_request" :: params) 2) with (idx params 1).
  change (idx ("download_request" :: params) 5) with (idx params 4).
  change (idx ("download_request" :: params) 6) with (idx params 5).
  rewrite Ha.
  replace (amount <? 0) with false by (symmetry; apply Z.ltb_ge; lia).
  simpl orb. cbv iota. rewrite Hd. unfold After.
  replace (now <? dt) with true by (symmetry; apply Z.ltb_lt; lia).
  simpl negb. cbv iota.
  unfold int_sub. rewrite wrap64_id
    by (unfold in_int, minInt, maxInt, StartAmount in *; lia).
  unfold request_writes, requested_record.
  destruct (PutState st (idx params 0) _) as [st1 e1] eqn:H1.
  destruct (PutState st1 (idx params 1) _) as [st2 e2] eqn:H2.
  simpl fst. unfold PutState at 1, ContractKey.
  destruct (decide ("contract" = "")) as [E|_]; [discriminate E|].
  rewrite ?H1, ?H2. reflexivity.
Qed.

(** Every request is either well-formed or refused with the ledger
    untouched. *)
Lemma Invoke_request_cases (st : gmap string string) (now : Z) (params : list string) :
  (exists amount dt, request_wellformed now params amount dt) \/
  (exists msg, Invoke st now ("download_request" :: params) = (Error msg, st)).
Proof.
  unfold Invoke, Invoke_download_request, request_wellformed.
  simpl GetFunctionAndParameters. cbv iota beta.
  rewrite bool_decide_eq_true_2 by reflexivity.
  change (idx ("download_request" :: params) 3) with (idx params 2).
  change (idx ("download_request" :: params) 4) with (idx params 3).
  destruct (Nat.eqb_spec (length ("download_request" :: params)) 7) as [Hlen|Hlen];
    simpl negb; cbv iota; [|right; eauto].
  destruct (Atoi (idx params 2)) as [amount err].
  destruct err; simpl orb; cbv iota; [right; eauto|].
  destruct (Z.ltb_spec amount 0); [right; eauto|].
  destruct (time_Parse (idx params 3)) as [dt|e]; [|right; eauto].
  unfold After. destruct (Z.ltb_spec now dt); simpl negb; cbv iota; [|right; eauto].
  left. exists amount, dt. simpl in Hlen. repeat split; auto; lia.
Qed.

Lemma request_malformed_not_wellformed (now : Z) (params : list string) (amount dt : Z) :
  request_malformed now params -> request_wellformed now params amount dt -> False.
Proof.
  intros Hbad (Hlen & Ha & Hpos & Hd & Hfut).
  unfold request_malformed in Hbad. rewrite Ha, Hd in Hbad. simpl in Hbad.
  destruct Hbad as [H|[H|[H|[[e H]|(dt' & H & Hle)]]]];
    try congruence; try lia; try discriminate.
  injection H as <-. lia.
Qed.

(** C7.  A request that fails validation (wrong number of arguments,
    amount that is not a number or is negative, expiry date that does not
    parse or is not in the future) returns an error response and writes
    nothing: the ledger after the call is the ledger before it. *)
Theorem request_validation_failure_writes_nothing
  (st : gmap string string) (now : Z) (params : list string) :
  request_malformed now params ->
  exists msg, Invoke st now ("download_request" :: params) = (Error msg, st).
Proof.
  intros Hbad.
  destruct (Invoke_request_cases st now params) as [(amount & dt & Hwf)|Herr].
  - destruct (request_malformed_not_wellformed _ _ _ _ Hbad Hwf).
  - exact Herr.
Qed.

(** A request that succeeded was well-formed and left [request_writes]. *)
Lemma Invoke_request_success_inv (st st' : gmap string string) (now : Z)
  (params : list string) (payload : string) :
  Invoke st now ("download_request" :: params) = (Success payload, st') ->
  exists amount dt, request_wellformed now params amount dt
                    /\ st' = request_writes st params amount dt.
Proof.
  intros Hok.
  destruct (Invoke_request_cases st now params) as [(amount & dt & Hwf)|[msg Herr]].
  - exists amount, dt. split; [assumption|].
    rewrite (Invoke_request_ok _ _ _ _ _ Hwf) in Hok. congruence.
  - congruence.
Qed.

(** C10.  When the function name is none of the names [Invoke] dispatches
    on, the response is a success whose payload is that name, and the
    ledger is unchanged. *)
Theorem Invoke_unrecognized_function
  (st : gmap string string) (now : Z) (sargs : list string) :
  let fn := fst (GetFunctionAndParameters sargs) in
  fn <> "download_request" -> fn <> "penalty" -> fn <> "refund" ->
  fn <> "get_status" ->
  Invoke st now sargs = (Success fn, st).
Proof.
  unfold Invoke. destruct (GetFunctionAndParameters sargs) as [fn args].
  simpl. intros H1 H2 H3 H4.
  rewrite !bool_decide_eq_false_2 by assumption. reflexivity.
Qed.

(** C4 (amended).  A request whose six arguments are well-formed and whose
    two keys are non-empty and different from the record's key succeeds;
    the stored record has status [download_requested], the given deposit
    and expiry, the fixed owner address and port and the user's address and
    port from the arguments; and the owner's and the user's stored balances
    are both the starting allowance minus the deposit. *)
Theorem request_effect (st : gmap string string) (now : Z)
  (owner user amt date ip port : string) (amount dt : Z) :
  Atoi amt = (amount, false) -> 0 <= amount ->
  time_Parse date = inl dt -> now < dt ->
  owner <> "" -> owner <> ContractKey -> user <> "" -> user <> ContractKey ->
  exists st',
    Invoke st now ["download_request"; owner; user; amt; date; ip; port]
    = (Success "download_request", st') /\
    st' !! ContractKey
    = Some (json_Marshal (mkAPDL "download_requested"
                            (mkParty owner SenderIP SenderPort)
                            (mkParty user ip port) dt amount)) /\
    GetState st' owner = Itoa (StartAmount - amount) /\
    GetState st' user = Itoa (StartAmount - amount) /\
    read_balance st' owner = StartAmount - amount /\
    read_balance st' user = StartAmount - amount.
Proof.
  intros Ha Hpos Hd Hfut Ho Hoc Hu Huc.
  assert (Hwf : request_wellformed now [owner; user; amt; date; ip; port] amount dt)
    by (repeat split; assumption).
  pose proof (Atoi_ok_in_int _ _ Ha) as Hin.
  assert (Hbal : in_int (StartAmount - amount))
    by (unfold in_int, minInt, maxInt, StartAmount in *; lia).
  eexists. split; [apply (Invoke_request_ok _ _ _ _ _ Hwf)|].
  unfold request_writes, requested_record, PutState, idx. cbn [nth].
  rewrite !decide_False by assumption. simpl fst.
  assert (Hgo : GetState (<[ContractKey:=json_Marshal
                     (mkAPDL "download_requested" (mkParty owner SenderIP SenderPort)
                        (mkParty user ip port) dt amount)]>
                   (<[user:=Itoa (StartAmount - amount)]>
                      (<[owner:=Itoa (StartAmount - amount)]> st))) owner
                = Itoa (StartAmount - amount)).
  { unfold GetState. rewrite lookup_insert_ne by congruence.
    destruct (decide (user = owner)) as [->|Hne].
    - rewrite lookup_insert_eq. reflexivity.
    - rewrite lookup_insert_ne by assumption. rewrite lookup_insert_eq. reflexivity. }
  assert (Hgu : GetState (<[ContractKey:=json_Marshal
                     (mkAPDL "download_requested" (mkParty owner SenderIP SenderPort)
                        (mkParty user ip port) dt amount)]>
                   (<[user:=Itoa (StartAmount - amount)]>
                      (<[owner:=Itoa (StartAmount - amount)]> st))) user
                = Itoa (StartAmount - amount)).
  { unfold GetState. rewrite lookup_insert_ne by congruence.
    rewrite lookup_insert_eq. reflexivity. }
  split; [apply lookup_insert_eq|].
  split; [exact Hgo|]. split; [exact Hgu|].
  unfold read_balance. rewrite Hgo, Hgu, Atoi_Itoa by assumption. auto.
Qed.

End Request.

(** ** Penalty *)

Section Penalty.
Context `{Ext : External}.

Lemma Invoke_penalty_eq (st : gmap string string) (now : Z) (args : list string) :
  Invoke st now ("penalty" :: args) = Invoke_penalty st args.
Proof. reflexivity. Qed.

(** [verifySig] on the two pairs of a penalty can only return true when
    both keys stand for elliptic-curve keys. *)
Lemma verifySig_two_true (message k1 k2 s1 s2 : string) :
  verifySig message [k1; k2] [s1; s2] = true ->
  is_Some (decodes_ec k1) /\ is_Some (decodes_ec k2).
Proof.
  unfold verifySig. simpl length. simpl negb. cbv iota. intros H.
  destruct (decodes_ec k1) as [e1|] eqn:H1;
    [|rewrite verifySig_loop_reject in H by auto; discriminate].
  destruct (le_lt_dec 2 (length (Split_comma s1))) as [L1|L1];
    [|rewrite verifySig_loop_reject in H by auto; discriminate].
  rewrite (verifySig_loop_step _ _ _ _ _ e1) in H by assumption.
  destruct (decodes_ec k2) as [e2|] eqn:H2;
    [|rewrite verifySig_loop_reject in H by auto; discriminate].
  split; eauto.
Qed.

(** Past the argument count, a penalty is decided by the status gate and
    then by the signature check. *)
Lemma Invoke_penalty_cases (st : gmap string string) (a0 msg s1 s2 : string) :
  let apdl := load st in
  Invoke_penalty st [a0; msg; s1; s2]
  = if bool_decide (Status apdl = "init") || bool_decide (Status apdl = "penalized")
    then (Error ("[-] Invalid status for penalty. Current status: " ++ Status apdl), st)
    else if verifySig msg [PubKey (SoftwareOwner apdl); PubKey (SoftwareUser apdl)] [s1; s2]
    then (Success ("[+] Penalty applied" ++ LF), penalty_writes st)
    else (Error ("[-] Signature verification failed. Penalty not applied. comparisons: "
                 ++ (PubKey (SoftwareOwner apdl) ++ " vs. " ++ s1) ++ "---"
                 ++ (PubKey (SoftwareUser apdl) ++ " vs. " ++ s2)), st).
Proof.
  unfold Invoke_penalty, penalty_writes, load, read_balance. simpl length. simpl negb.
  cbv iota. unfold idx. cbn [nth].
  destruct (_ || _); [reflexivity|].
  destruct (verifySig _ _ _); simpl negb; cbv iota; [|reflexivity].
  destruct (Atoi _) as [balance e]. simpl fst.
  destruct (PutState st _ _) as [st1 e1]. simpl fst.
  unfold PutState, ContractKey.
  destruct (decide ("contract" = "")) as [E|_]; [discriminate E|]. reflexivity.
Qed.

(** C6.  While the stored record's status is [init] or [penalized], a
    penalty fails with the invalid-status error and the ledger is unchanged,
    whatever message and signatures are passed.  Every other status passes
    this gate: the call is then decided by the signature check alone. *)
Theorem penalty_status_gate (st : gmap string string) (now : Z) (a0 msg s1 s2 : string) :
  let apdl := load st in
  (Status apdl = "init" \/ Status apdl = "penalized" ->
   Invoke st now ["penalty"; a0; msg; s1; s2]
   = (Error ("[-] Invalid status for penalty. Current status: " ++ Status apdl), st))
  /\
  (Status apdl <> "init" -> Status apdl <> "penalized" ->
   Invoke st now ["penalty"; a0; msg; s1; s2]
   = if verifySig msg [PubKey (SoftwareOwner apdl); PubKey (SoftwareUser apdl)] [s1; s2]
     then (Success ("[+] Penalty applied" ++ LF), penalty_writes st)
     else (Error ("[-] Signature verification failed. Penalty not applied. comparisons: "
                  ++ (PubKey (SoftwareOwner apdl) ++ " vs. " ++ s1) ++ "---"
                  ++ (PubKey (SoftwareUser apdl) ++ " vs. " ++ s2)), st)).
Proof.
  intros apdl. rewrite Invoke_penalty_eq, Invoke_penalty_cases. fold apdl. split.
  - intros [H|H]; rewrite H.
    + reflexivity.
    + rewrite (bool_decide_eq_true_2 ("penalized" = "penalized")) by reflexivity.
      rewrite orb_true_r. reflexivity.
  - intros Hi Hp. rewrite !bool_decide_eq_false_2 by assumption. reflexivity.
Qed.


(** A penalty that succeeded passed both gates and left [penalty_writes]. *)
Lemma Invoke_penalty_success_inv (st st' : gmap string string) (now : Z)
  (args : list string) (payload : string) :
  Invoke st now ("penalty" :: args) = (Success payload, st') ->
  st' = penalty_writes st /\
  exists msg s1 s2,
    verifySig msg [PubKey (SoftwareOwner (load st)); PubKey (SoftwareUser (load st))]
      [s1; s2] = true.
Proof.
  rewrite Invoke_penalty_eq.
  destruct args as [|a0 [|msg [|s1 [|s2 [|x rest]]]]]; try discriminate.
  rewrite Invoke_penalty_cases.
  destruct (_ || _); [discriminate|].
  destruct (verifySig _ _ _) eqn:Hv; [|discriminate].
  intros [= _ <-]. split; [reflexivity|]. eauto.
Qed.

(** C9 (amended).  A successful penalty writes only the user's balance key
    and the record's key: every other key of the ledger keeps its value;
    in particular the owner's stored balance is unchanged whenever the
    owner's key is not also the user's key. *)
Theorem penalty_frame (st st' : gmap string string) (now : Z)
  (args : list string) (payload : string) :
  let apdl := load st in
  Invoke st now ("penalty" :: args) = (Success payload, st') ->
  (forall k : string,
     k <> PubKey (SoftwareUser apdl) -> k <> ContractKey -> st' !! k = st !! k) /\
  (decodes_ec ContractKey = None ->
   PubKey (SoftwareOwner apdl) <> PubKey (SoftwareUser apdl) ->
   st' !! PubKey (SoftwareOwner apdl) = st !! PubKey (SoftwareOwner apdl)).
Proof.
  intros apdl Hok.
  destruct (Invoke_penalty_success_inv _ _ _ _ _ Hok) as [-> (msg & s1 & s2 & Hv)].
  fold apdl in Hv.
  assert (Hframe : forall k : string,
             k <> PubKey (SoftwareUser apdl) -> k <> ContractKey ->
             penalty_writes st !! k = st !! k).
  { intros k Hu Hc. unfold penalty_writes. fold apdl.
    rewrite lookup_insert_ne by congruence.
    unfold PutState. destruct (decide (_ = "")); simpl fst; [reflexivity|].
    rewrite lookup_insert_ne by congruence. reflexivity. }
  split; [exact Hframe|].
  intros Hc Hne. apply Hframe; [assumption|].
  destruct (verifySig_two_true _ _ _ _ _ Hv) as [[k Hk] _].
  intros E. rewrite E in Hk. congruence.
Qed.

End Penalty.

(** ** Refund *)

Section Refund.
Context `{Ext : External}.

Lemma Invoke_refund_eq (st : gmap string string) (now : Z) (args : list string) :
  Invoke st now ("refund" :: args) = Invoke_refund st now.
Proof. reflexivity. Qed.

(** C3 (amended).  For a stored record whose status is the one refund tests
    for: while the current time is not strictly after the expiry, refund
    fails with the not-yet-expired error and the ledger is unchanged; once
    it is strictly after, and provided the user's key is non-empty and is
    not the record's key, refund succeeds, stores the record with status
    [expired] and stores as the user's balance the previous balance plus
    the deposit (Go's [int] addition: the exact sum whenever it is
    representable). *)
Theorem refund_effect (st : gmap string string) (now : Z) (args : list string) :
  let apdl := load st in
  let user := PubKey (SoftwareUser apdl) in
  Status apdl = "download_request" ->
  (now <= ContractExpiry apdl ->
   Invoke st now ("refund" :: args) = (Error "[-] APDL contract not yet expired", st))
  /\
  (ContractExpiry apdl < now -> user <> "" -> user <> ContractKey ->
   exists st',
     Invoke st now ("refund" :: args) = (Success "[+] APDL contract expired.", st') /\
     st' !! ContractKey = Some (json_Marshal (set_Status apdl "expired")) /\
     GetState st' user = Itoa (int_add (read_balance st user) (DepositAmount apdl)) /\
     (in_int (read_balance st user + DepositAmount apdl) ->
      read_balance st' user = read_balance st user + DepositAmount apdl)).
Proof.
  intros apdl user Hs. rewrite Invoke_refund_eq. unfold Invoke_refund.
  fold (load st). fold apdl. rewrite Hs.
  rewrite (bool_decide_eq_true_2 ("download_request" = "download_request")) by reflexivity.
  simpl negb. cbv iota. unfold After. split.
  - intros Hle. replace (ContractExpiry apdl <? now) with false
      by (symmetry; apply Z.ltb_ge; lia).
    reflexivity.
  - intros Hlt Hne Hnc.
    replace (ContractExpiry apdl <? now) with true by (symmetry; apply Z.ltb_lt; lia).
    cbn [set_Status SoftwareUser DepositAmount]. fold user.
    unfold PutState at 1. unfold ContractKey at 1.
    destruct (decide ("contract" = "")) as [E|_]; [discriminate E|].
    set (st1 := <[ContractKey:=json_Marshal (set_Status apdl "expired")]> st).
    assert (Hread : GetState st1 user = GetState st user).
    { unfold GetState, st1. rewrite lookup_insert_ne by congruence. reflexivity. }
    rewrite Hread.
    destruct (Atoi (GetState st user)) as [balance e] eqn:Hb.
    assert (Hbal : read_balance st user = balance)
      by (unfold read_balance; rewrite Hb; reflexivity).
    rewrite Hbal. unfold PutState. rewrite decide_False by assumption.
    eexists. split; [reflexivity|].
    assert (Hg : GetState (<[user:=Itoa (int_add balance (DepositAmount apdl))]> st1) user
                 = Itoa (int_add balance (DepositAmount apdl))).
    { unfold GetState. rewrite lookup_insert_eq. reflexivity. }
    split.
    { rewrite lookup_insert_ne by congruence. apply lookup_insert_eq. }
    split; [exact Hg|].
    intros Hin. unfold read_balance. rewrite Hg. unfold int_add.
    rewrite wrap64_id by assumption. rewrite Atoi_Itoa by assumption. reflexivity.
Qed.

(** C2.  The status a successful request writes, [download_requested], is
    not the status refund tests for, [download_request]: after any
    successful request a refund fails with the invalid-status error at
    every time, and leaves the ledger (record and balances) unchanged.
    The one assumption on the encoding is that the status of the record
    the request has just encoded is read back from its bytes; nothing is
    assumed of the other fields. *)
Theorem request_then_refund_rejected
  (st st' : gmap string string) (now : Z) (params : list string) (payload : string) :
  (forall amount dt : Z,
     request_wellformed now params amount dt ->
     json_reads_status (requested_record params amount dt)) ->
  Invoke st now ("download_request" :: params) = (Success payload, st') ->
  forall (now' : Z) (args : list string),
    Invoke st' now' ("refund" :: args)
    = (Error "[-] Invalid status for refund. Current status: download_requested", st').
Proof.
  intros Hst Hok now' args.
  destruct (Invoke_request_success_inv _ _ _ _ _ Hok) as (amount & dt & Hwf & ->).
  specialize (Hst amount dt Hwf). unfold json_reads_status in Hst.
  rewrite Invoke_refund_eq. unfold Invoke_refund, request_writes, GetState.
  rewrite lookup_insert_eq. simpl default. rewrite Hst. reflexivity.
Qed.

End Refund.

(** ** What [verifySig] rejects, and what it lets through *)

Section VerifySigRejects.
Context `{Ext : External}.

Lemma verifySig_length_mismatch (message : string) (pks sgs : list string) :
  length pks <> length sgs -> verifySig message pks sgs = false.
Proof.
  intros H. unfold verifySig.
  destruct (Nat.eqb_spec (length pks) (length sgs)); [contradiction|reflexivity].
Qed.

(** A position is reached when every earlier pair has an elliptic-curve
    key and a signature of two components; a key that does not parse or is
    of another algorithm, or a signature with fewer than two components,
    at a reached position makes [verifySig] return false. *)
Lemma verifySig_rejects_at (message pk sg : string) :
  forall (pks sgs pks' sgs' : list string),
  length pks = length sgs ->
  Forall (fun p => is_Some (decodes_ec p)) pks ->
  Forall (fun s => (2 <= length (Split_comma s))%nat) sgs ->
  decodes_ec pk = None \/ (length (Split_comma sg) < 2)%nat ->
  verifySig message (pks ++ pk :: pks') (sgs ++ sg :: sgs') = false.
Proof.
  intros pks sgs pks' sgs' Hlen Hk Hs Hbad. unfold verifySig.
  destruct (negb _); [reflexivity|].
  enough (H : forall v,
             verifySig_loop message (pks ++ pk :: pks') (sgs ++ sg :: sgs') v = false)
    by apply H.
  revert sgs Hlen Hk Hs.
  induction pks as [|p pks IH]; intros [|s sgs] Hlen Hk Hs v;
    simpl in Hlen; try discriminate.
  - apply verifySig_loop_reject. assumption.
  - rewrite <- !app_comm_cons.
    inversion Hk as [|? ? [k Hp] Hk']; subst.
    inversion Hs as [|? ? Hsg Hs']; subst.
    rewrite (verifySig_loop_step _ _ _ _ _ k) by assumption.
    apply IH; auto.
Qed.

(** C8 (the part the code misses).  The error of the base64 decoder is
    never tested: when it reports an error but the bytes it decoded before
    the error parse as an elliptic-curve key, [verifySig] goes on to check
    the signature and returns true if it verifies. *)
Theorem verifySig_base64_error_unchecked
  (message pk sg bytes : string) (k : ecdsa_PublicKey) :
  base64_DecodeString pk = (bytes, true) ->
  x509_ParsePKIXPublicKey bytes = Some (ECDSAKey k) ->
  pair_verifies message pk sg = true ->
  verifySig message [pk] [sg] = true.
Proof.
  intros Hd Hp Hv. unfold verifySig. simpl length. simpl negb. cbv iota.
  unfold pair_verifies, decodes_ec in Hv. simpl. rewrite Hd in *. simpl in Hv.
  rewrite Hp in *.
  destruct (Split_comma sg) as [|s0 [|s1 rest]]; try discriminate.
  exact Hv.
Qed.

End VerifySigRejects.

(** ** The sample library *)

Section SampleFacts.

Lemma append_assoc (s t u : string) : ((s ++ t) ++ u = s ++ (t ++ u))%string.
Proof.
  induction s as [|c s IH]; [reflexivity|].
  change (String c ((s ++ t) ++ u) = String c (s ++ (t ++ u)))%string.
  f_equal. exact IH.
Qed.

Lemma dec_enc_field (s rest : string) :
  Sample.dec_field (Sample.enc_field s ++ rest) = (s, rest).
Proof.
  induction s as [|c s IH]; [reflexivity|].
  change ((let '(f, r) := Sample.dec_field (Sample.enc_field s ++ rest) in
           (String c f, r)) = (String c s, rest)).
  rewrite IH. reflexivity.
Qed.

Lemma dec_enc_Z (z : Z) (rest : string) :
  Sample.dec_Z (Sample.enc_Z z ++ rest) = (z, rest).
Proof.
  unfold Sample.dec_Z, Sample.enc_Z. rewrite dec_enc_field.
  rewrite NilZero.isi.
  - rewrite DecimalZ.of_to. reflexivity.
  - destruct z as [|p|p]; simpl; try discriminate.
    intros [= E]. exact (Unsigned.to_uint_nonnil p E).
  - destruct z as [|p|p]; simpl; try discriminate.
    intros [= E]. exact (Unsigned.to_uint_nonnil p E).
Qed.

Lemma dec_enc_Party (p : Party) (rest : string) :
  Sample.dec_Party (Sample.enc_Party p ++ rest) = (p, rest).
Proof.
  destruct p as [k ip port]. unfold Sample.dec_Party, Sample.enc_Party. simpl.
  rewrite !append_assoc, !dec_enc_field. reflexivity.
Qed.

Lemma append_empty_r (s : string) : (s ++ "")%string = s.
Proof.
  induction s as [|c s IH]; [reflexivity|].
  change (String c (s ++ "")%string = String c s). f_equal. exact IH.
Qed.

(** The sample encoding reads back every record. *)
Lemma sample_roundtrip : @json_roundtrip Sample.lib.
Proof.
  intros [status owner user expiry deposit].
  unfold json_Unmarshal, json_Marshal, Sample.lib, Sample.unmarshal, Sample.marshal. simpl.
  rewrite dec_enc_field, !dec_enc_Party, dec_enc_Z.
  rewrite <- (append_empty_r (Sample.enc_Z deposit)), dec_enc_Z. reflexivity.
Qed.

End SampleFacts.

(** ** The chaincode run on concrete transactions *)

Section Runs.

Lemma verifySig_is_last_pair_witness :
  @pair_verifies Sample.lib "breach" "EC:owner" "0,0" = false /\
  @verifySig Sample.lib "breach" ["EC:owner"; "EC:user"] ["0,0"; "4,6"] = true.
Proof.
  split; [vm_compute; reflexivity|].
  refine (eq_trans (@verifySig_is_last_pair Sample.lib "breach" "EC:user" "4,6"
                      ["EC:owner"] ["0,0"] _ _ _) _).
  - reflexivity.
  - repeat constructor; vm_compute; eauto.
  - repeat constructor; vm_compute; lia.
  - vm_compute; reflexivity.
Defined.

Lemma verifySig_base64_error_unchecked_witness :
  snd (@base64_DecodeString Sample.lib "EC:user!") = true /\
  @verifySig Sample.lib "breach" ["EC:user!"] ["4,6"] = true.
Proof.
  split; [vm_compute; reflexivity|].
  apply (@verifySig_base64_error_unchecked Sample.lib "breach" "EC:user!" "4,6"
           "EC:user" "user"); vm_compute; reflexivity.
Defined.

Lemma Invoke_unrecognized_function_witness :
  @Invoke Sample.lib ∅ 0 ["initialize"] = (Success "initialize", ∅).
Proof.
  apply (@Invoke_unrecognized_function Sample.lib ∅ 0 ["initialize"]); discriminate.
Defined.

Lemma request_validation_failure_writes_nothing_witness :
  exists msg,
    @Invoke Sample.lib ∅ 0 (Run.request_args "EC:owner" "EC:user" "-5" "9")
    = (Error msg, ∅).
Proof.
  apply (@request_validation_failure_writes_nothing Sample.lib ∅ 0
           ["EC:owner"; "EC:user"; "-5"; "9"; "1.2.3.4"; "9000"]).
  right. right. left. vm_compute. reflexivity.
Defined.

Lemma request_effect_witness :
  exists st',
    @Invoke Sample.lib ∅ 0 (Run.request_args "EC:owner" "EC:user" "1000" "9")
    = (Success "download_request", st') /\
    read_balance st' "EC:owner" = 74000 /\ read_balance st' "EC:user" = 74000.
Proof.
  destruct (@request_effect Sample.lib ∅ 0 "EC:owner" "EC:user" "1000" "9"
              "1.2.3.4" "9000" 1000 9)
    as (st' & H1 & _ & _ & _ & H5 & H6);
    [vm_compute; reflexivity | lia | vm_compute; reflexivity | lia
    | discriminate | discriminate | discriminate | discriminate |].
  exists st'. split; [exact H1|]. split; [exact H5|exact H6].
Defined.

Lemma request_then_refund_rejected_witness :
  let requested :=
    @Invoke Sample.lib ∅ 0 (Run.request_args "EC:owner" "EC:user" "1000" "9") in
  fst requested = Success "download_request" /\
  @Invoke Sample.lib (snd requested) 100 ["refund"]
  = (Error "[-] Invalid status for refund. Current status: download_requested",
     snd requested).
Proof.
  intros requested. split; [vm_compute; reflexivity|].
  apply (@request_then_refund_rejected Sample.lib ∅ (snd requested) 0
           ["EC:owner"; "EC:user"; "1000"; "9"; "1.2.3.4"; "9000"]
           "download_request").
  - intros amount dt _. unfold json_reads_status.
    rewrite sample_roundtrip. reflexivity.
  - vm_compute. reflexivity.
Defined.

Lemma penalty_status_gate_witness :
  let st := snd (@Init Sample.lib ∅ 0) in
  @Invoke Sample.lib st 1 ["penalty"; "x"; "breach"; "5,6"; "4,6"]
  = (Error "[-] Invalid status for penalty. Current status: init", st).
Proof.
  intros st.
  destruct (@penalty_status_gate Sample.lib st 1 "x" "breach" "5,6" "4,6") as [H _].
  refine (eq_trans (H _) _); [left|]; vm_compute; reflexivity.
Defined.


Lemma penalty_frame_witness :
  let st := <["EC:owner" := "74000"]>
              (Run.ledger "download_requested" "EC:owner" "EC:user" 9 500 "74000") in
  let st' := snd (@Invoke Sample.lib st 1 ["penalty"; "x"; "breach"; "5,6"; "4,6"]) in
  st' !! "EC:owner" = Some "74000" /\ st' !! "EC:user" = Some "73500".
Proof.
  intros st st'. split; [|vm_compute; reflexivity].
  destruct (@penalty_frame Sample.lib st st' 1 ["x"; "breach"; "5,6"; "4,6"]
              ("[+] Penalty applied" ++ LF)) as [_ H];
    [vm_compute; reflexivity|].
  refine (eq_trans (H _ _) _);
    [vm_compute; reflexivity | vm_compute; discriminate | vm_compute; reflexivity].
Defined.

Lemma refund_effect_witness :
  let st := Run.ledger "download_request" "EC:owner" "EC:user" 9 1000 "74000" in
  @Invoke Sample.lib st 9 ["refund"] = (Error "[-] APDL contract not yet expired", st) /\
  exists st',
    @Invoke Sample.lib st 10 ["refund"] = (Success "[+] APDL contract expired.", st') /\
    read_balance st' "EC:user" = 75000 /\
    Status (@load Sample.lib st') = "expired".
Proof.
  intros st. split.
  - destruct (@refund_effect Sample.lib st 9 []) as [H _]; [vm_compute; reflexivity|].
    apply H. vm_compute. discriminate.
  - destruct (@refund_effect Sample.lib st 10 []) as [_ H]; [vm_compute; reflexivity|].
    destruct H as (st' & H1 & H2 & H3 & H4);
      [vm_compute; reflexivity | vm_compute; discriminate | vm_compute; discriminate|].
    exists st'. split; [exact H1|]. split.
    + refine (eq_trans (H4 _) _); [vm_compute; split; discriminate|].
      vm_compute; reflexivity.
    + unfold load, GetState. rewrite H2. vm_compute. reflexivity.
Defined.

(** A well-formed request whose user key is the record's key: the record
    overwrites the balance written under that key, so the user's stored
    balance is not the starting allowance minus the deposit. *)
Lemma request_effect_counterexample :
  let result :=
    @Invoke Sample.lib ∅ 0 (Run.request_args "EC:owner" "contract" "1000" "9") in
  Atoi "1000" = (1000, false) /\ @time_Parse Sample.lib "9" = inl 9 /\
  fst result = Success "download_request" /\
  GetState (snd result) "contract" <> Itoa (StartAmount - 1000) /\
  read_balance (snd result) "contract" <> StartAmount - 1000.
Proof.
  vm_compute. repeat split; discriminate.
Defined.

(** A stored record with the status refund tests for, past its expiry,
    whose user key is the record's key: refund reports success, but the
    balance written last replaces the record, so no record with status
    [expired] is left in the ledger. *)
Lemma refund_effect_counterexample :
  let st : gmap string string :=
    <[ContractKey := Sample.marshal
        (mkAPDL "download_request" (mkParty "EC:owner" SenderIP SenderPort)
           (mkParty "contract" "1.2.3.4" "9000") 9 500)]> ∅ in
  let result := @Invoke Sample.lib st 10 ["refund"] in
  Status (@load Sample.lib st) = "download_request" /\
  ContractExpiry (@load Sample.lib st) < 10 /\
  fst result = Success "[+] APDL contract expired." /\
  snd result !! ContractKey
    <> Some (@json_Marshal Sample.lib (set_Status (@load Sample.lib st) "expired")) /\
  Status (@load Sample.lib (snd result)) <> "expired".
Proof.
  vm_compute. repeat split; discriminate.
Defined.

(** A record whose owner and user are the same key: a successful penalty
    changes the owner's stored balance. *)
Lemma penalty_frame_counterexample :
  let st := Run.ledger "download_requested" "EC:bob" "EC:bob" 9 500 "1000" in
  let result := @Invoke Sample.lib st 1 ["penalty"; "x"; "breach"; "3,6"; "3,6"] in
  let owner := PubKey (SoftwareOwner (@load Sample.lib st)) in
  fst result = Success ("[+] Penalty applied" ++ LF) /\
  st !! owner = Some "1000" /\ snd result !! owner = Some "500".
Proof.
  vm_compute. repeat split.
Defined.

End Runs.

(** ** The outcome of any transaction *)

Section Outcome.
Context `{Ext : External}.

Lemma Invoke_penalty_arity (st : gmap string string) (args : list string) :
  length args <> 4%nat ->
  Invoke_penalty st args = (Error "need to pass recipient sig", st).
Proof.
  intros H. unfold Invoke_penalty.
  destruct (Nat.eqb_spec (length args) 4); [contradiction|reflexivity].
Qed.

Lemma Invoke_refund_cases (st : gmap string string) (now : Z) :
  let apdl := load st in
  Invoke_refund st now
  = if negb (bool_decide (Status apdl = "download_request"))
    then (Error ("[-] Invalid status for refund. Current status: " ++ Status apdl), st)
    else if After now (ContractExpiry apdl)
    then (Success "[+] APDL contract expired.", refund_writes st)
    else (Error "[-] APDL contract not yet expired", st).
Proof.
  unfold Invoke_refund, refund_writes, load, read_balance.
  destruct (negb _); [reflexivity|].
  destruct (After _ _); [|reflexivity].
  cbn [set_Status SoftwareUser DepositAmount PubKey].
  unfold PutState at 1.
  rewrite (decide_False (P := ContractKey = "")) by discriminate.
  destruct (Atoi _) as [balance e]. simpl fst.
  destruct (PutState _ _ _) as [st2 e2]. reflexivity.
Qed.

(** Every transaction either leaves the ledger as it was, or is one of the
    three successful writes. *)
Lemma Invoke_outcome (st st' : gmap string string) (now : Z)
  (sargs : list string) (r : Response) :
  Invoke st now sargs = (r, st') ->
  st' = st
  \/ (exists params amount dt,
        sargs = "download_request" :: params /\
        request_wellformed now params amount dt /\
        r = Success "download_request" /\
        st' = request_writes st params amount dt)
  \/ (r = Success ("[+] Penalty applied" ++ LF) /\
      Status (load st) <> "init" /\ Status (load st) <> "penalized" /\
      st' = penalty_writes st)
  \/ (r = Success "[+] APDL contract expired." /\
      Status (load st) = "download_request" /\
      ContractExpiry (load st) < now /\
      st' = refund_writes st).
Proof.
  destruct sargs as [|fn args]; [intros [= _ <-]; auto|].
  destruct (decide (fn = "download_request")) as [->|Hr].
  { intros H.
    destruct (Invoke_request_cases st now args) as [(amount & dt & Hwf)|[msg Herr]].
    - rewrite (Invoke_request_ok _ _ _ _ _ Hwf) in H. injection H as <- <-.
      right. left. exists args, amount, dt. auto.
    - rewrite Herr in H. injection H as _ <-. auto. }
  destruct (decide (fn = "penalty")) as [->|Hp].
  { rewrite Invoke_penalty_eq.
    destruct (decide (length args = 4%nat)) as [Hlen|Hlen].
    - destruct args as [|a0 [|msg [|s1 [|s2 [|x rest]]]]]; try discriminate.
      rewrite Invoke_penalty_cases.
      destruct (bool_decide (Status (load st) = "init")) eqn:Hi;
        [intros [= _ <-]; auto|].
      destruct (bool_decide (Status (load st) = "penalized")) eqn:Hpz;
        [intros [= _ <-]; auto|].
      apply bool_decide_eq_false in Hi. apply bool_decide_eq_false in Hpz.
      simpl orb. cbv iota.
      destruct (verifySig _ _ _); intros [= <- <-]; auto 10.
    - rewrite Invoke_penalty_arity by assumption. intros [= _ <-]. auto. }
  destruct (decide (fn = "refund")) as [->|Hf].
  { rewrite Invoke_refund_eq, Invoke_refund_cases.
    destruct (bool_decide (Status (load st) = "download_request")) eqn:Hs;
      simpl negb; cbv iota; [|intros [= _ <-]; auto].
    apply bool_decide_eq_true in Hs. unfold After.
    destruct (Z.ltb_spec (ContractExpiry (load st)) now);
      intros [= <- <-]; auto 10. }
  unfold Invoke. simpl GetFunctionAndParameters. cbv iota beta.
  rewrite !bool_decide_eq_false_2 by assumption.
  destruct (bool_decide (fn = "get_status")); intros [= _ <-]; auto.
Qed.

End Outcome.

(** ** Records read back after a write *)

Section Loads.
Context `{Ext : External}.
Hypothesis Hrt : json_roundtrip.

Lemma load_insert_contract (st : gmap string string) (a : APDL) :
  load (<[ContractKey := json_Marshal a]> st) = a.
Proof. unfold load, GetState. rewrite lookup_insert_eq. simpl. apply Hrt. Qed.

Lemma load_request_writes (st : gmap string string) (params : list string)
  (amount dt : Z) :
  load (request_writes st params amount dt) = requested_record params amount dt.
Proof. unfold request_writes. apply load_insert_contract. Qed.

Lemma load_penalty_writes (st : gmap string string) :
  load (penalty_writes st) = set_Status (load st) "penalized".
Proof. unfold penalty_writes. apply load_insert_contract. Qed.

Lemma load_refund_writes (st : gmap string string) :
  PubKey (SoftwareUser (load st)) <> ContractKey ->
  load (refund_writes st) = set_Status (load st) "expired".
Proof.
  intros Hne. unfold refund_writes, PutState.
  destruct (decide (_ = "")); simpl fst; [apply load_insert_contract|].
  unfold load at 1. unfold GetState.
  rewrite lookup_insert_ne by assumption. rewrite lookup_insert_eq. simpl. apply Hrt.
Qed.

Lemma Init_eq (st : gmap string string) (now : Z) :
  Init st now
  = (Success ("[+] Init completed" ++ LF),
     <[ContractKey := json_Marshal (mkAPDL "init" Party_zero Party_zero now 0)]> st).
Proof.
  unfold Init, PutState.
  rewrite (decide_False (P := ContractKey = "")) by discriminate. reflexivity.
Qed.

Lemma agreement_inv_step (st : gmap string string) (now : Z) (sargs : list string) :
  agreement_inv st -> agreement_inv (snd (Invoke st now sargs)).
Proof.
  intros Hinv.
  destruct (Invoke st now sargs) as [r st'] eqn:Hstep. simpl snd.
  destruct (Invoke_outcome _ _ _ _ _ Hstep)
    as [->|[(params & amount & dt & -> & Hwf & _ & ->)|[(_ & _ & _ & ->)|(_ & Hs & _)]]].
  - exact Hinv.
  - unfold agreement_inv. rewrite load_request_writes. simpl.
    destruct Hwf as (_ & Ha & Hpos & _).
    apply Atoi_ok_in_int in Ha. unfold in_int in Ha. split; [auto|lia].
  - unfold agreement_inv in *. rewrite load_penalty_writes. simpl.
    destruct Hinv as [_ Hd]. split; [auto|exact Hd].
  - destruct Hinv as [[H|[H|H]] _]; rewrite H in Hs; discriminate.
Qed.

Lemma agreement_inv_run (calls : list (Z * list string)) :
  forall st : gmap string string, agreement_inv st -> agreement_inv (run st calls).
Proof.
  induction calls as [|[now sargs] calls IH]; intros st Hinv; simpl; [assumption|].
  apply IH, agreement_inv_step, Hinv.
Qed.

Lemma agreement_inv_Init (st : gmap string string) (now : Z) :
  agreement_inv (snd (Init st now)).
Proof.
  rewrite Init_eq. simpl snd. unfold agreement_inv. rewrite load_insert_contract.
  simpl. unfold maxInt. split; [auto|lia].
Qed.

End Loads.

(** ** Further properties of the state machine *)

Section StateMachine.
Context `{Ext : External}.

(** X1.  Whatever the transaction, an error response comes with the ledger
    exactly as it was before the call: no operation writes before it has
    finished validating. *)
Theorem Invoke_error_leaves_ledger (st st' : gmap string string) (now : Z)
  (sargs : list string) (msg : string) :
  Invoke st now sargs = (Error msg, st') -> st' = st.
Proof.
  intros H.
  destruct (Invoke_outcome _ _ _ _ _ H)
    as [->|[(params & amount & dt & _ & _ & Hr & _)|[(Hr & _)|(Hr & _)]]];
    [reflexivity|discriminate..].
Qed.

(** X2.  On every ledger reached from [Init] by any sequence of
    transactions, the stored record's status is [init],
    [download_requested] or [penalized], and its deposit is a non-negative
    [int]: the status [expired] is never reached. *)
Theorem reachable_agreement (st0 : gmap string string) (now0 : Z)
  (calls : list (Z * list string)) :
  json_roundtrip ->
  agreement_inv (run (snd (Init st0 now0)) calls).
Proof.
  intros Hrt. apply agreement_inv_run; [assumption|].
  apply agreement_inv_Init. assumption.
Qed.

(** X3.  On every ledger reached from [Init] by any sequence of
    transactions, a refund fails with the invalid-status error and leaves
    the ledger unchanged, at every time. *)
Theorem refund_never_succeeds (st0 : gmap string string) (now0 : Z)
  (calls : list (Z * list string)) (now : Z) (args : list string) :
  json_roundtrip ->
  let st := run (snd (Init st0 now0)) calls in
  Invoke st now ("refund" :: args)
  = (Error ("[-] Invalid status for refund. Current status: " ++ Status (load st)), st).
Proof.
  intros Hrt st.
  assert (Hinv : agreement_inv st)
    by (apply agreement_inv_run; [|apply agreement_inv_Init]; assumption).
  rewrite Invoke_refund_eq, Invoke_refund_cases.
  rewrite bool_decide_eq_false_2; [reflexivity|].
  destruct Hinv as [[H|[H|H]] _]; rewrite H; discriminate.
Qed.

Lemma Invoke_penalized_unchanged (st : gmap string string) (now : Z)
  (sargs : list string) :
  Status (load st) = "penalized" ->
  fst (GetFunctionAndParameters sargs) <> "download_request" ->
  snd (Invoke st now sargs) = st.
Proof.
  intros Hs Hfn.
  destruct (Invoke st now sargs) as [r st'] eqn:Hstep. simpl snd.
  destruct (Invoke_outcome _ _ _ _ _ Hstep)
    as [->|[(params & amount & dt & -> & _)|[(_ & _ & Hp & _)|(_ & Hd & _)]]].
  - reflexivity.
  - simpl in Hfn. contradiction.
  - contradiction.
  - rewrite Hs in Hd. discriminate.
Qed.

Lemma run_penalized_unchanged (calls : list (Z * list string)) :
  forall st : gmap string string,
  Status (load st) = "penalized" ->
  Forall (fun c => fst (GetFunctionAndParameters (snd c)) <> "download_request") calls ->
  run st calls = st.
Proof.
  induction calls as [|[now sargs] calls IH]; intros st Hs Hall; [reflexivity|].
  inversion Hall as [|? ? Hfn Hrest]; subst. simpl in Hfn. simpl run.
  rewrite (Invoke_penalized_unchanged _ _ _ Hs Hfn). apply IH; assumption.
Qed.

(** X4.  After a successful penalty the agreement stays penalized until
    the next [download_request]: every sequence of transactions that
    contains no [download_request] leaves the ledger exactly as the
    penalty left it, and on that ledger every penalty with four parameters
    and every refund fails with the invalid-status error. *)
Theorem penalty_not_repeatable (st st' : gmap string string) (now : Z)
  (args : list string) (payload : string) :
  json_roundtrip ->
  Invoke st now ("penalty" :: args) = (Success payload, st') ->
  forall calls : list (Z * list string),
    Forall (fun c => fst (GetFunctionAndParameters (snd c)) <> "download_request")
      calls ->
    run st' calls = st' /\
    forall (now' : Z) (a0 msg s1 s2 : string) (args' : list string),
      Invoke st' now' ["penalty"; a0; msg; s1; s2]
      = (Error "[-] Invalid status for penalty. Current status: penalized", st') /\
      Invoke st' now' ("refund" :: args')
      = (Error "[-] Invalid status for refund. Current status: penalized", st').
Proof.
  intros Hrt Hok calls Hall.
  destruct (Invoke_penalty_success_inv _ _ _ _ _ Hok) as [-> _].
  assert (Hs : Status (load (penalty_writes st)) = "penalized")
    by (rewrite load_penalty_writes by assumption; reflexivity).
  split; [apply run_penalized_unchanged; assumption|].
  intros now' a0 msg s1 s2 args'. split.
  - rewrite Invoke_penalty_eq, Invoke_penalty_cases.
    rewrite load_penalty_writes by assumption. reflexivity.
  - rewrite Invoke_refund_eq, Invoke_refund_cases.
    rewrite load_penalty_writes by assumption. reflexivity.
Qed.

(** X5.  [get_status] returns the stored bytes and changes nothing: after a
    successful request it returns the encoding of the requested record,
    and after a successful penalty the encoding of the previous record
    with status [penalized]. *)
Theorem get_status_after_write (st st' : gmap string string) (now now' : Z)
  (args args' : list string) (payload : string) :
  (Invoke st now ("download_request" :: args) = (Success payload, st') ->
   exists amount dt,
     request_wellformed now args amount dt /\
     Invoke st' now' ("get_status" :: args')
     = (Success (json_Marshal (requested_record args amount dt)), st')) /\
  (Invoke st now ("penalty" :: args) = (Success payload, st') ->
   Invoke st' now' ("get_status" :: args')
   = (Success (json_Marshal (set_Status (load st) "penalized")), st')).
Proof.
  split; intros Hok.
  - destruct (Invoke_request_success_inv _ _ _ _ _ Hok) as (amount & dt & Hwf & ->).
    exists amount, dt. split; [assumption|].
    unfold Invoke. simpl. unfold GetState, request_writes.
    rewrite lookup_insert_eq. reflexivity.
  - destruct (Invoke_penalty_success_inv _ _ _ _ _ Hok) as [-> _].
    unfold Invoke. simpl. unfold GetState, penalty_writes.
    rewrite lookup_insert_eq. reflexivity.
Qed.

(** X6.  A request is not gated on the current status: a well-formed
    request succeeds on every ledger, whatever record it holds (also a
    penalized one), and replaces the record by the requested one. *)
Theorem request_replaces_record (st : gmap string string) (now : Z)
  (params : list string) (amount dt : Z) :
  json_roundtrip ->
  request_wellformed now params amount dt ->
  fst (Invoke st now ("download_request" :: params)) = Success "download_request" /\
  load (snd (Invoke st now ("download_request" :: params)))
  = requested_record params amount dt.
Proof.
  intros Hrt Hwf. rewrite (Invoke_request_ok _ _ _ _ _ Hwf). simpl.
  split; [reflexivity|]. apply load_request_writes. assumption.
Qed.

(** X7.  A successful request writes at most three keys: the owner's, the
    user's and the record's; every other key keeps its value. *)
Theorem request_frame (st st' : gmap string string) (now : Z)
  (params : list string) (payload : string) :
  Invoke st now ("download_request" :: params) = (Success payload, st') ->
  forall k : string,
    k <> idx params 0 -> k <> idx params 1 -> k <> ContractKey ->
    st' !! k = st !! k.
Proof.
  intros Hok k Ho Hu Hc.
  destruct (Invoke_request_success_inv _ _ _ _ _ Hok) as (amount & dt & _ & ->).
  unfold request_writes. rewrite lookup_insert_ne by congruence.
  unfold PutState.
  destruct (decide (idx params 0 = "")); destruct (decide (idx params 1 = ""));
    simpl fst; rewrite ?lookup_insert_ne by congruence; reflexivity.
Qed.

(** X8.  A successful refund writes at most two keys: the user's and the
    record's; every other key keeps its value. *)
Theorem refund_frame (st st' : gmap string string) (now : Z)
  (args : list string) (payload : string) :
  Invoke st now ("refund" :: args) = (Success payload, st') ->
  forall k : string,
    k <> PubKey (SoftwareUser (load st)) -> k <> ContractKey ->
    st' !! k = st !! k.
Proof.
  intros Hok k Hu Hc.
  destruct (Invoke_outcome _ _ _ _ _ Hok)
    as [->|[(params & amount & dt & Hr & _)|[(Hr & _)|(_ & _ & _ & ->)]]];
    [reflexivity|discriminate| |].
  - rewrite Invoke_refund_eq, Invoke_refund_cases in Hok.
    destruct (negb _); [discriminate|]. destruct (After _ _); [|discriminate].
    injection Hok as <- _. injection Hr as Hr. vm_compute in Hr. discriminate.
  - unfold refund_writes, PutState.
    destruct (decide (_ = "")); simpl fst;
      rewrite ?lookup_insert_ne by congruence; reflexivity.
Qed.

(** X9.  A penalty called with any number of parameters other than four
    (the three-parameter call [message, ownerSig, userSig] included) fails
    with the arity error before reading anything, and leaves the ledger
    unchanged. *)
Theorem penalty_wrong_arity (st : gmap string string) (now : Z) (args : list string) :
  length args <> 4%nat ->
  Invoke st now ("penalty" :: args) = (Error "need to pass recipient sig", st).
Proof.
  intros H. rewrite Invoke_penalty_eq. apply Invoke_penalty_arity. assumption.
Qed.

End StateMachine.

(** ** Sequences of operations *)

Section Sequences.
Context `{Ext : External}.

Lemma read_balance_insert_ne (st : gmap string string) (k k' v : string) :
  k <> k' -> read_balance (<[k' := v]> st) k = read_balance st k.
Proof.
  intros H. unfold read_balance, GetState. rewrite lookup_insert_ne by congruence.
  reflexivity.
Qed.

Lemma Invoke_refund_success_inv (st st' : gmap string string) (now : Z)
  (args : list string) (payload : string) :
  Invoke st now ("refund" :: args) = (Success payload, st') ->
  st' = refund_writes st /\ Status (load st) = "download_request"
  /\ ContractExpiry (load st) < now.
Proof.
  rewrite Invoke_refund_eq, Invoke_refund_cases.
  destruct (bool_decide (Status (load st) = "download_request")) eqn:Hs;
    simpl negb; cbv iota; [|discriminate].
  apply bool_decide_eq_true in Hs. unfold After.
  destruct (Z.ltb_spec (ContractExpiry (load st)) now); [|discriminate].
  intros [= _ <-]. auto.
Qed.

(** X10.  Request followed by penalty debits the user twice: the request
    sets both balances to the starting allowance minus the deposit, and
    the penalty takes the deposit from the user once more, while the
    owner's balance stays at the starting allowance minus the deposit. *)
Theorem request_then_penalty_balances (st : gmap string string) (now now' : Z)
  (owner user amt date ip port a0 msg s1 s2 : string) (amount dt : Z) :
  json_roundtrip ->
  decodes_ec "" = None -> decodes_ec ContractKey = None ->
  Atoi amt = (amount, false) -> 0 <= amount ->
  time_Parse date = inl dt -> now < dt ->
  verifySig msg [owner; user] [s1; s2] = true ->
  in_int (StartAmount - 2 * amount) ->
  exists st1 st2,
    Invoke st now ["download_request"; owner; user; amt; date; ip; port]
    = (Success "download_request", st1) /\
    Invoke st1 now' ["penalty"; a0; msg; s1; s2]
    = (Success ("[+] Penalty applied" ++ LF), st2) /\
    read_balance st2 user = StartAmount - 2 * amount /\
    (owner <> user -> read_balance st2 owner = StartAmount - amount).
Proof.
  intros Hrt He Hc Ha Hpos Hd Hfut Hv Hin.
  destruct (verifySig_two_true _ _ _ _ _ Hv) as [[ko Hko] [ku Hku]].
  assert (Ho : owner <> "") by (intros E; rewrite E in Hko; congruence).
  assert (Hoc : owner <> ContractKey) by (intros E; rewrite E in Hko; congruence).
  assert (Hu : user <> "") by (intros E; rewrite E in Hku; congruence).
  assert (Huc : user <> ContractKey) by (intros E; rewrite E in Hku; congruence).
  pose proof (Atoi_ok_in_int _ _ Ha) as Hamt.
  assert (Hbal : in_int (StartAmount - amount))
    by (unfold in_int, minInt, maxInt, StartAmount in *; lia).
  set (params := [owner; user; amt; date; ip; port]).
  assert (Hwf : request_wellformed now params amount dt)
    by (repeat split; assumption).
  set (st1 := request_writes st params amount dt).
  assert (Hl1 : load st1 = requested_record params amount dt)
    by (apply load_request_writes; assumption).
  assert (Hu1 : read_balance st1 user = StartAmount - amount).
  { unfold st1, request_writes, PutState, params, idx. cbn [nth].
    rewrite !decide_False by assumption. simpl fst.
    rewrite read_balance_insert_ne by assumption.
    apply read_balance_insert. assumption. }
  assert (Ho1 : owner <> user -> read_balance st1 owner = StartAmount - amount).
  { intros Hne. unfold st1, request_writes, PutState, params, idx. cbn [nth].
    rewrite !decide_False by assumption. simpl fst.
    rewrite !read_balance_insert_ne by assumption.
    apply read_balance_insert. assumption. }
  exists st1, (penalty_writes st1).
  split; [apply (Invoke_request_ok _ _ _ _ _ Hwf)|].
  split.
  { rewrite Invoke_penalty_eq, Invoke_penalty_cases, Hl1.
    unfold requested_record, params, idx. cbn [nth Status SoftwareOwner SoftwareUser PubKey].
    rewrite !bool_decide_eq_false_2 by discriminate. simpl orb. cbv iota.
    rewrite Hv. reflexivity. }
  unfold penalty_writes. rewrite Hl1.
  unfold requested_record, params, idx.
  cbn [nth SoftwareUser PubKey DepositAmount].
  rewrite Hu1. unfold PutState. rewrite decide_False by assumption. simpl fst.
  unfold int_sub.
  replace (StartAmount - amount - amount) with (StartAmount - 2 * amount) by lia.
  rewrite wrap64_id by assumption.
  split.
  - rewrite read_balance_insert_ne by assumption.
    apply read_balance_insert. assumption.
  - intros Hne. rewrite !read_balance_insert_ne by assumption. apply Ho1, Hne.
Qed.

(** X11.  The status [expired] does not close the agreement for
    penalties: after a successful refund, a penalty passes the status gate
    and is decided by the signature check alone. *)
Theorem penalty_after_refund (st st' : gmap string string) (now : Z)
  (args : list string) (payload : string) :
  json_roundtrip ->
  PubKey (SoftwareUser (load st)) <> ContractKey ->
  Invoke st now ("refund" :: args) = (Success payload, st') ->
  forall (now' : Z) (a0 msg s1 s2 : string),
    Invoke st' now' ["penalty"; a0; msg; s1; s2]
    = if verifySig msg
           [PubKey (SoftwareOwner (load st)); PubKey (SoftwareUser (load st))] [s1; s2]
      then (Success ("[+] Penalty applied" ++ LF), penalty_writes st')
      else (Error ("[-] Signature verification failed. Penalty not applied. comparisons: "
                   ++ (PubKey (SoftwareOwner (load st)) ++ " vs. " ++ s1) ++ "---"
                   ++ (PubKey (SoftwareUser (load st)) ++ " vs. " ++ s2)), st').
Proof.
  intros Hrt Hne Hok now' a0 msg s1 s2.
  destruct (Invoke_refund_success_inv _ _ _ _ _ Hok) as (-> & _ & _).
  rewrite Invoke_penalty_eq, Invoke_penalty_cases.
  rewrite load_refund_writes by assumption.
  cbn [set_Status Status SoftwareOwner SoftwareUser].
  rewrite !bool_decide_eq_false_2 by discriminate. reflexivity.
Qed.

(** X12.  After [Init] the agreement is in status [init] whatever the
    ledger held: the call succeeds, touches no key but the record's, and
    every penalty and every refund that follows is refused with the
    invalid-status error. *)
Theorem Init_then_rejected (st : gmap string string) (now now' : Z)
  (a0 msg s1 s2 : string) (args : list string) :
  json_roundtrip ->
  let st' := snd (Init st now) in
  fst (Init st now) = Success ("[+] Init completed" ++ LF) /\
  (forall k : string, k <> ContractKey -> st' !! k = st !! k) /\
  Invoke st' now' ["penalty"; a0; msg; s1; s2]
  = (Error "[-] Invalid status for penalty. Current status: init", st') /\
  Invoke st' now' ("refund" :: args)
  = (Error "[-] Invalid status for refund. Current status: init", st').
Proof.
  intros Hrt st'. unfold st'. rewrite Init_eq. simpl fst. simpl snd.
  split; [reflexivity|]. split.
  { intros k Hk. rewrite lookup_insert_ne by congruence. reflexivity. }
  split.
  - rewrite Invoke_penalty_eq, Invoke_penalty_cases.
    rewrite load_insert_contract by assumption. reflexivity.
  - rewrite Invoke_refund_eq, Invoke_refund_cases.
    rewrite load_insert_contract by assumption. reflexivity.
Qed.

End Sequences.

(** ** When [verifySig] accepts *)

Section VerifySigAccepts.
Context `{Ext : External}.

Lemma verifySig_loop_true_iff (message : string) :
  forall (pks sgs : list string) (v : bool),
  length pks = length sgs ->
  verifySig_loop message pks sgs v = true <->
  Forall (fun p => is_Some (decodes_ec p)) pks /\
  Forall (fun s => (2 <= length (Split_comma s))%nat) sgs /\
  match last pks, last sgs with
  | Some pk, Some sg => pair_verifies message pk sg = true
  | _, _ => v = true
  end.
Proof.
  induction pks as [|p pks IH]; intros [|s sgs] v Hlen; simpl in Hlen;
    try discriminate.
  - simpl. split; [intros ->; auto|intros (_ & _ & H); exact H].
  - injection Hlen as Hlen.
    destruct (decodes_ec p) as [k|] eqn:Hp.
    2:{ rewrite verifySig_loop_reject by auto. split; [discriminate|].
        intros (Hk & _). inversion Hk as [|? ? [k' Hk'] _]; subst. congruence. }
    destruct (le_lt_dec 2 (length (Split_comma s))) as [Hs|Hs].
    2:{ rewrite verifySig_loop_reject by auto. split; [discriminate|].
        intros (_ & Hsg & _). inversion Hsg; subst. lia. }
    rewrite (verifySig_loop_step _ _ _ _ _ k) by assumption.
    rewrite (IH sgs _ Hlen).
    assert (Hlast : match last (p :: pks), last (s :: sgs) with
                    | Some pk, Some sg => pair_verifies message pk sg = true
                    | _, _ => v = true
                    end
                    <-> match last pks, last sgs with
                        | Some pk, Some sg => pair_verifies message pk sg = true
                        | _, _ => pair_verifies message p s = true
                        end).
    { destruct pks as [|p' pks]; destruct sgs as [|s' sgs]; simpl in Hlen;
        try discriminate; [reflexivity|].
      rewrite !last_cons_cons.
      destruct (last (p' :: pks)) eqn:E1; [|apply last_None in E1; discriminate].
      destruct (last (s' :: sgs)) eqn:E2; [|apply last_None in E2; discriminate].
      reflexivity. }
    rewrite Hlast. rewrite !Forall_cons. rewrite Hp.
    split; [intros (A & B & C)|intros ((_ & A) & (_ & B) & C)]; eauto 10.
Qed.

(** X13.  [verifySig] returns true exactly when the two lists have the same
    length, for every key the bytes the base64 decoder returns (whether or
    not it reports an error) parse as an elliptic-curve key, every
    signature splits into at least two comma-separated pieces (pieces
    after the second are not looked at), and the last (key, signature)
    pair verifies.  So it returns false on empty lists, and whenever the
    bytes of some key in the list do not parse or parse to a key of
    another kind, or some signature splits into fewer than two pieces. *)
Theorem verifySig_true_iff (message : string) (pks sgs : list string) :
  verifySig message pks sgs = true <->
  length pks = length sgs /\
  Forall (fun p => is_Some (decodes_ec p)) pks /\
  Forall (fun s => (2 <= length (Split_comma s))%nat) sgs /\
  exists pk sg, last pks = Some pk /\ last sgs = Some sg
                /\ pair_verifies message pk sg = true.
Proof.
  unfold verifySig.
  destruct (Nat.eqb_spec (length pks) (length sgs)) as [Hlen|Hlen]; simpl negb; cbv iota.
  - rewrite (verifySig_loop_true_iff message pks sgs false Hlen).
    split.
    + intros (A & B & C). repeat split; try assumption.
      destruct (last pks) as [pk|]; [|discriminate].
      destruct (last sgs) as [sg|]; [|discriminate]. eauto.
    + intros (_ & A & B & pk & sg & -> & -> & C). auto.
  - split; [discriminate|]. intros (E & _). contradiction.
Qed.

End VerifySigAccepts.

(** ** Text of signatures and balances *)

Section Texts.

Lemma Join_cons_nonempty (x y : string) (l : list string) :
  Join (x :: y :: l) "," = (x ++ "," ++ Join (y :: l) ",")%string.
Proof. reflexivity. Qed.

(** X14.  Splitting a signature string at its commas loses nothing:
    joining the pieces with commas gives the string back, and there is
    always at least one piece. *)
Theorem Join_Split_comma (s : string) :
  Join (Split_comma s) "," = s /\ (1 <= length (Split_comma s))%nat.
Proof.
  induction s as [|c s [IH IHlen]]; [split; [reflexivity|simpl; lia]|].
  simpl Split_comma. destruct (Ascii.eqb_spec c ",") as [->|Hc].
  - split; [|simpl; lia].
    destruct (Split_comma s) as [|h t] eqn:Hs; [simpl in IHlen; lia|].
    rewrite Join_cons_nonempty, IH. reflexivity.
  - destruct (Split_comma s) as [|h t] eqn:Hs; [simpl in IHlen; lia|].
    split; [|simpl; lia].
    destruct t as [|y t].
    + simpl in IH. simpl. rewrite IH. reflexivity.
    + rewrite Join_cons_nonempty in *. rewrite <- IH. reflexivity.
Qed.

Lemma Atoi_in_int (s : string) : in_int (fst (Atoi s)).
Proof.
  destruct (Atoi s) as [v e] eqn:H. destruct e; [|exact (Atoi_ok_in_int _ _ H)].
  simpl. revert H. unfold Atoi, in_int, minInt, maxInt.
  destruct s as [|c r]; [intros [= <-]; lia|].
  destruct (Ascii.eqb c "-"); [|destruct (Ascii.eqb c "+")].
  - destruct r; [intros [= <-]; lia|].
    destruct (atoi_digits _ 0) as [z|]; [|intros [= <-]; lia].
    destruct (2 ^ 63 <? z); intros [= <-]; lia.
  - destruct r; [intros [= <-]; lia|].
    destruct (atoi_digits _ 0) as [z|]; [|intros [= <-]; lia].
    destruct (2 ^ 63 <=? z); intros [= <-]; lia.
  - destruct (atoi_digits _ 0) as [z|]; [|intros [= <-]; lia].
    destruct (2 ^ 63 <=? z); intros [= <-]; lia.
Qed.

(** X15.  A balance stored with [PutState] as the decimal text of an [int]
    reads back as the same integer. *)
Theorem balance_write_read (st : gmap string string) (key : string) (v : Z) :
  key <> "" -> in_int v ->
  read_balance (fst (PutState st key (Itoa v))) key = v.
Proof.
  intros Hk Hv. unfold PutState. rewrite decide_False by assumption.
  simpl fst. apply read_balance_insert. assumption.
Qed.

(** X16.  Whatever the ledger holds under a key, the balance the chaincode
    reads from it is an [int]; it is 0 when the key was never written. *)
Theorem read_balance_bounds (st : gmap string string) (key : string) :
  in_int (read_balance st key) /\ (st !! key = None -> read_balance st key = 0).
Proof.
  split; [apply Atoi_in_int|].
  intros H. unfold read_balance, GetState. rewrite H. reflexivity.
Qed.

End Texts.

(** ** Further runs on concrete transactions *)

Section MoreRuns.

Lemma Invoke_error_leaves_ledger_witness :
  snd (@Invoke Sample.lib ∅ 0 ["refund"]) = ∅.
Proof.
  apply (@Invoke_error_leaves_ledger Sample.lib ∅ _ 0 ["refund"]
           "[-] Invalid status for refund. Current status: ").
  vm_compute. reflexivity.
Defined.

Lemma reachable_agreement_witness :
  @agreement_inv Sample.lib
    (@run Sample.lib (snd (@Init Sample.lib ∅ 0))
       [(1, Run.request_args "EC:owner" "EC:user" "1000" "9");
        (2, ["penalty"; "x"; "breach"; "5,6"; "4,6"]);
        (10, ["refund"])]).
Proof.
  exact (@reachable_agreement Sample.lib ∅ 0 _ sample_roundtrip).
Defined.

Lemma refund_never_succeeds_witness :
  let st := @run Sample.lib (snd (@Init Sample.lib ∅ 0))
              [(1, Run.request_args "EC:owner" "EC:user" "1000" "9")] in
  @Invoke Sample.lib st 10 ["refund"]
  = (Error "[-] Invalid status for refund. Current status: download_requested", st).
Proof.
  intros st.
  refine (eq_trans (@refund_never_succeeds Sample.lib ∅ 0
                      [(1, Run.request_args "EC:owner" "EC:user" "1000" "9")] 10 []
                      sample_roundtrip) _).
  vm_compute. reflexivity.
Defined.

Lemma penalty_not_repeatable_witness :
  let st := Run.ledger "download_requested" "EC:owner" "EC:user" 9 500 "100" in
  let st' := snd (@Invoke Sample.lib st 1 ["penalty"; "x"; "breach"; "5,6"; "4,6"]) in
  @run Sample.lib st'
    [(2, ["penalty"; "x"; "breach"; "5,6"; "4,6"]); (10, ["refund"]);
     (11, ["get_status"]); (12, ["penalty"; "breach"; "5,6"; "4,6"])]
  = st' /\
  @Invoke Sample.lib st' 2 ["penalty"; "x"; "breach"; "5,6"; "4,6"]
  = (Error "[-] Invalid status for penalty. Current status: penalized", st').
Proof.
  intros st st'.
  destruct (@penalty_not_repeatable Sample.lib st st' 1 ["x"; "breach"; "5,6"; "4,6"]
              ("[+] Penalty applied" ++ LF) sample_roundtrip
              ltac:(vm_compute; reflexivity)
              [(2, ["penalty"; "x"; "breach"; "5,6"; "4,6"]); (10, ["refund"]);
               (11, ["get_status"]); (12, ["penalty"; "breach"; "5,6"; "4,6"])])
    as [Hrun Hfail].
  - repeat constructor; simpl; discriminate.
  - split; [exact Hrun|]. exact (proj1 (Hfail 2 "x" "breach" "5,6" "4,6" [])).
Defined.

Lemma get_status_after_write_witness :
  let st' := snd (@Invoke Sample.lib ∅ 0
                    (Run.request_args "EC:owner" "EC:user" "1000" "9")) in
  exists amount dt,
    @Invoke Sample.lib st' 5 ["get_status"]
    = (Success (Sample.marshal
                  (@requested_record ["EC:owner"; "EC:user"; "1000"; "9"; "1.2.3.4"; "9000"]
                     amount dt)), st').
Proof.
  intros st'.
  destruct (@get_status_after_write Sample.lib ∅ st' 0 5
              ["EC:owner"; "EC:user"; "1000"; "9"; "1.2.3.4"; "9000"] []
              "download_request") as [H _].
  destruct (H ltac:(vm_compute; reflexivity)) as (amount & dt & _ & Hg).
  exists amount, dt. exact Hg.
Defined.

Lemma request_replaces_record_witness :
  let st := Run.ledger "penalized" "EC:owner" "EC:user" 9 500 "-400" in
  let result := @Invoke Sample.lib st 20
                  (Run.request_args "EC:carol" "EC:dave" "10" "30") in
  fst result = Success "download_request" /\
  Status (@load Sample.lib (snd result)) = "download_requested".
Proof.
  intros st result.
  destruct (@request_replaces_record Sample.lib st 20
              ["EC:carol"; "EC:dave"; "10"; "30"; "1.2.3.4"; "9000"] 10 30
              sample_roundtrip) as [H1 H2].
  - repeat split; try lia; vm_compute; reflexivity.
  - split; [exact H1|]. unfold result, Run.request_args. rewrite H2. reflexivity.
Defined.

Lemma request_frame_witness :
  snd (@Invoke Sample.lib (<["other" := "7"]> ∅) 0
         (Run.request_args "EC:owner" "EC:user" "1000" "9")) !! "other"
  = Some "7".
Proof.
  refine (eq_trans (@request_frame Sample.lib (<["other" := "7"]> ∅) _ 0
                      ["EC:owner"; "EC:user"; "1000"; "9"; "1.2.3.4"; "9000"]
                      "download_request" _ "other" _ _ _) _);
    [vm_compute; reflexivity | vm_compute; discriminate..| vm_compute; reflexivity].
Defined.

Lemma refund_frame_witness :
  let st := <["other" := "7"]>
              (Run.ledger "download_request" "EC:owner" "EC:user" 9 1000 "74000") in
  snd (@Invoke Sample.lib st 10 ["refund"]) !! "other" = Some "7".
Proof.
  intros st.
  refine (eq_trans (@refund_frame Sample.lib st _ 10 []
                      "[+] APDL contract expired." _ "other" _ _) _);
    [vm_compute; reflexivity | vm_compute; discriminate..| vm_compute; reflexivity].
Defined.

Lemma penalty_wrong_arity_witness :
  let st := Run.ledger "download_requested" "EC:owner" "EC:user" 9 500 "100" in
  @Invoke Sample.lib st 1 ["penalty"; "breach"; "5,6"; "4,6"]
  = (Error "need to pass recipient sig", st).
Proof.
  intros st.
  apply (@penalty_wrong_arity Sample.lib st 1 ["breach"; "5,6"; "4,6"]).
  simpl. lia.
Defined.

Lemma request_then_penalty_balances_witness :
  exists st1 st2,
    @Invoke Sample.lib ∅ 0 (Run.request_args "EC:owner" "EC:user" "1000" "9")
    = (Success "download_request", st1) /\
    @Invoke Sample.lib st1 1 ["penalty"; "x"; "breach"; "5,6"; "4,6"]
    = (Success ("[+] Penalty applied" ++ LF), st2) /\
    read_balance st2 "EC:user" = 73000 /\ read_balance st2 "EC:owner" = 74000.
Proof.
  destruct (@request_then_penalty_balances Sample.lib ∅ 0 1 "EC:owner" "EC:user"
              "1000" "9" "1.2.3.4" "9000" "x" "breach" "5,6" "4,6" 1000 9
              sample_roundtrip)
    as (st1 & st2 & H1 & H2 & H3 & H4);
    [vm_compute; reflexivity | vm_compute; reflexivity | vm_compute; reflexivity
    | lia | vm_compute; reflexivity | lia | vm_compute; reflexivity
    | vm_compute; split; discriminate |].
  exists st1, st2. split; [exact H1|]. split; [exact H2|].
  split; [exact H3|]. apply H4. discriminate.
Defined.

Lemma penalty_after_refund_witness :
  let st := Run.ledger "download_request" "EC:owner" "EC:user" 9 1000 "74000" in
  let st' := snd (@Invoke Sample.lib st 10 ["refund"]) in
  fst (@Invoke Sample.lib st' 11 ["penalty"; "x"; "breach"; "5,6"; "4,6"])
  = Success ("[+] Penalty applied" ++ LF).
Proof.
  intros st st'.
  rewrite (@penalty_after_refund Sample.lib st st' 10 [] "[+] APDL contract expired."
             sample_roundtrip ltac:(vm_compute; discriminate)
             ltac:(vm_compute; reflexivity) 11 "x" "breach" "5,6" "4,6").
  vm_compute. reflexivity.
Defined.

Lemma Init_then_rejected_witness :
  let st' := snd (@Init Sample.lib (<["EC:user" := "74000"]> ∅) 0) in
  st' !! "EC:user" = Some "74000" /\
  @Invoke Sample.lib st' 1 ["refund"]
  = (Error "[-] Invalid status for refund. Current status: init", st').
Proof.
  intros st'.
  destruct (@Init_then_rejected Sample.lib (<["EC:user" := "74000"]> ∅) 0 1
              "x" "breach" "5,6" "4,6" [] sample_roundtrip) as (_ & Hf & _ & Hr).
  split; [|exact Hr].
  refine (eq_trans (Hf "EC:user" _) _); [discriminate|vm_compute; reflexivity].
Defined.

Lemma balance_write_read_witness :
  read_balance (fst (PutState ∅ "EC:user" (Itoa (-400)))) "EC:user" = -400.
Proof.
  apply (balance_write_read ∅ "EC:user" (-400)); [discriminate|].
  vm_compute. split; discriminate.
Defined.

End MoreRuns.
